(** * dylib: a shallow embedding of src/dylib.cpp

    The library handle class [dylib] of src/dylib.cpp, embedded as pure
    functions over an explicit world: the libraries and file descriptors
    that are open, and the trace of calls made to the operating system.

    - pointers ([native_handle_type], [native_symbol_type]) are addresses
      in [Z], [0] being [nullptr];
    - a [const char *] argument is an [option string]: [None] is
      [nullptr], [Some s] points to the characters [s] that come before
      the terminating NUL;
    - [std::string] is [string];
    - a member function that can throw returns an [outcome]; a [noexcept]
      one returns its value;
    - the two builds selected by [#if (defined(_WIN32) || defined(_WIN64))]
      are the two values of [target]. *)

From Stdlib Require Import ZArith String Ascii List Lia Bool.
From stdpp Require Import base option gmap.
Import ListNotations.

Local Open Scope string_scope.
Local Open Scope Z_scope.

(** ** std::string operations used by the source *)

Module StdString.

(** [s.empty()] *)
Definition empty (s : string) : bool :=
  match s with
  | EmptyString => true
  | String _ _ => false
  end.

(** [s.size()], and [strlen (s.c_str ())] for a string without NUL. *)
Definition size (s : string) : nat := String.length s.

(** [std::string::npos] is the largest [size_t]; no index of a string
    reaches it, so a position is an [option nat] and [npos] is [None]. *)
Definition npos : option nat := None.

(** [s.size() - 1] in [size_t]: [0 - 1] wraps round to the largest
    value, which is [npos]. *)
Definition size_minus_one (s : string) : option nat :=
  match size s with
  | O => npos
  | S n => Some n
  end.

(** [s.find_last_of(c)]: the index of the last [c] in [s], counted from
    [i] for the first character, or [npos]. *)
Fixpoint find_last_of_from (i : nat) (s : string) (c : ascii) : option nat :=
  match s with
  | EmptyString => npos
  | String a s' =>
      match find_last_of_from (S i) s' c with
      | Some j => Some j
      | None => if Ascii.eqb a c then Some i else npos
      end
  end.

Definition find_last_of (s : string) (c : ascii) : option nat :=
  find_last_of_from 0 s c.

(** [p] is an initial segment of [s]. *)
Fixpoint starts_with (p s : string) : bool :=
  match p, s with
  | EmptyString, _ => true
  | String a p', String b s' => Ascii.eqb a b && starts_with p' s'
  | String _ _, EmptyString => false
  end.

(** [s.find(p)]: the first index at which [p] occurs in [s], counted
    from [i] for the first character, or [npos]. *)
Fixpoint find_from (i : nat) (s p : string) : option nat :=
  if starts_with p s then Some i
  else match s with
       | EmptyString => npos
       | String _ s' => find_from (S i) s' p
       end.

Definition find (s p : string) : option nat := find_from 0 s p.

(** [s[n]]: the character at index [n]; at [n = s.size()] the standard
    gives a reference to the NUL character ([zero]).  Beyond the size the
    source never indexes (see [get_symbol]). *)
Fixpoint at_index (s : string) (n : nat) : ascii :=
  match s, n with
  | EmptyString, _ => zero
  | String a _, O => a
  | String _ s', S n' => at_index s' n'
  end.

(** [s.c_str()] read as C text: the characters before the first NUL. *)
Fixpoint c_str (s : string) : string :=
  match s with
  | EmptyString => EmptyString
  | String a s' => if Ascii.eqb a zero then EmptyString else String a (c_str s')
  end.

(** The line feed of the messages. *)
Definition newline : string := String (ascii_of_nat 10) EmptyString.

(** [pos1 == pos2] on positions. *)
Definition pos_eqb (p q : option nat) : bool :=
  match p, q with
  | Some i, Some j => Nat.eqb i j
  | None, None => true
  | _, _ => false
  end.

End StdString.

Import StdString.

(** ** Build configuration *)

(** The build the preprocessor selects: [Windows] when [_WIN32] or
    [_WIN64] is defined, [Posix] otherwise. *)
Inductive target := Windows | Posix.

(** [DYLIB_WIN_OTHER(win_def, other_def)] *)
Definition DYLIB_WIN_OTHER {A : Type} (t : target) (win_def other_def : A) : A :=
  match t with
  | Windows => win_def
  | Posix => other_def
  end.

(** [symbol_params]: the two switches of [symbols]. *)
Record symbol_params := { demangle : bool; loadable : bool }.

(** What dylib.hpp declares and dylib.cpp uses.  The header is not part of
    the sources at hand, so its constants are parameters of the model:
    the two [filename_components], the default member initializer of
    [m_fd] and the default argument of [symbols]. *)
Record header := {
  prefix : string;
  suffix : string;
  m_fd_init : Z;
  symbols_default : symbol_params
}.

(** ** Calls that leave the program

    The trace holds the calls to the loader, the file system, the
    symbol-table reader, the diagnostics and the print.  The demangler is
    a function of its argument and its calls are not traced. *)

Inductive call :=
| Call_open_lib (path : string)
| Call_locate_symbol (lib : Z) (name : string)
| Call_close_lib (lib : Z)
| Call_open (path : string)
| Call_close (fd : Z)
| Call_get_symbols (lib : Z) (fd : option Z) (dem load : bool)
| Call_error_description
| Call_cout (address : Z).

(** The external collaborators: the platform loader, the file system, the
    symbol-table reader and the demangler.  Each is a function of its
    arguments; the diagnostics depend on the calls made so far. *)
Record env := {
  (* [LoadLibraryA path] / [dlopen (path, RTLD_NOW | RTLD_LOCAL)] *)
  os_open_lib : string -> Z;
  (* [GetProcAddress (lib, name)] / [dlsym (lib, name)] *)
  os_locate_symbol : Z -> string -> Z;
  (* [dlerror ()]: [None] is [nullptr] *)
  os_dlerror : list call -> option string;
  (* [GetLastError ()] *)
  os_GetLastError : list call -> Z;
  (* [FormatMessageA]: the length it returns and the text it writes *)
  os_FormatMessageA : Z -> Z * string;
  (* [open (path, O_RDONLY)] *)
  os_open : string -> Z;
  (* [get_symbols]: the names, or the [std::string] it throws; the
      Windows build passes no descriptor *)
  get_symbols : Z -> option Z -> bool -> bool -> string + list string;
  (* [get_demangled_name]: empty when demangling fails *)
  get_demangled_name : string -> string
}.

(** The libraries and descriptors that are open (a library opened twice
    is listed twice) and the calls made, oldest first. *)
Record world := {
  libs : list Z;
  files : list Z;
  calls : list call
}.

Definition log (c : call) (w : world) : world :=
  {| libs := libs w; files := files w; calls := (calls w ++ [c])%list |}.

(** Drops the first occurrence of [x]. *)
Fixpoint remove_one (x : Z) (l : list Z) : list Z :=
  match l with
  | [] => []
  | y :: l' => if Z.eqb x y then l' else y :: remove_one x l'
  end.

(** ** Exceptions and the monad of member functions *)

Inductive exn :=
| invalid_argument (what : string)
| logic_error (what : string)
| load_error (what : string)
| symbol_error (what : string).

Inductive outcome (A : Type) :=
| Returned (a : A)
| Thrown (e : exn).
Arguments Returned {A} a.
Arguments Thrown {A} e.

(** A [noexcept] computation. *)
Definition IO (A : Type) : Type := world -> A * world.

(** A computation that may throw. *)
Definition M (A : Type) : Type := world -> outcome A * world.

Definition ret {A} (a : A) : M A := fun w => (Returned a, w).

Definition throw {A} (e : exn) : M A := fun w => (Thrown e, w).

Definition bind {A B} (m : M A) (k : A -> M B) : M B :=
  fun w =>
    match m w with
    | (Returned a, w') => k a w'
    | (Thrown e, w') => (Thrown e, w')
    end.

Definition lift {A} (m : IO A) : M A :=
  fun w => let (a, w') := m w in (Returned a, w').

Notation "'let*' x ':=' m 'in' k" := (bind m (fun x => k))
  (at level 10, x name, m at level 100, k at level 200).

(** The class: its two data members.  The Windows build has no [m_fd];
    there the field is carried along and never read. *)
Record dylib := {
  m_handle : Z;
  m_fd : Z
}.

(** ** The translation unit *)

Section Dylib.

Variable T : target.
Variable H : header.
Variable E : env.

(** The width of a pointer of the build, in bits. *)
Variable ptr_bits : Z.

(** *** The static helpers *)

Definition open_lib (path : string) : IO Z :=
  fun w =>
    let lib := os_open_lib E path in
    (lib, {| libs := if lib =? 0 then libs w else (libs w ++ [lib])%list;
             files := files w;
             calls := (calls w ++ [Call_open_lib path])%list |}).

Definition locate_symbol (lib : Z) (name : string) : IO Z :=
  fun w => (os_locate_symbol E lib name, log (Call_locate_symbol lib name) w).

Definition close_lib (lib : Z) : IO unit :=
  fun w =>
    (tt, {| libs := remove_one lib (libs w);
            files := files w;
            calls := (calls w ++ [Call_close_lib lib])%list |}).

Definition get_error_description : IO string :=
  fun w =>
    (match T with
     | Windows =>
         let error_code := os_GetLastError E (calls w) in
         if error_code =? 0 then "Unknown error (GetLastError failed)"
         else
           let (length, description) := os_FormatMessageA E error_code in
           if length =? 0 then "Unknown error (FormatMessage failed)"
           else description
     | Posix =>
         match os_dlerror E (calls w) with
         | None => "Unknown error (dlerror failed)"
         | Some description => description
         end
     end, log Call_error_description w).

(** [open (path, O_RDONLY)] and [close (fd)] of the POSIX build. *)
Definition posix_open (path : string) : IO Z :=
  fun w =>
    let fd := os_open E path in
    (fd, {| libs := libs w;
            files := if fd <? 0 then files w else (files w ++ [fd])%list;
            calls := (calls w ++ [Call_open path])%list |}).

Definition posix_close (fd : Z) : IO unit :=
  fun w =>
    (tt, {| libs := libs w;
            files := remove_one fd (files w);
            calls := (calls w ++ [Call_close fd])%list |}).

(** [std::cout << "Calculated symbol address: " << symbol << std::endl] *)
Definition cout (address : Z) : IO unit :=
  fun w => (tt, log (Call_cout address) w).

(** *** Construction and destruction *)

(** The name handed to the loader: [lib_name], decorated on request. *)
Definition final_name_of (lib_name : string) (decorations : bool) : string :=
  if decorations then prefix H ++ lib_name ++ suffix H else lib_name.

(** The directory part: [dir_path], with ['/'] added under the test of
    the source. *)
Definition final_path_of (dir_path : string) : string :=
  if negb (empty dir_path)
     && negb (pos_eqb (find_last_of dir_path "/") (size_minus_one dir_path))
  then dir_path ++ "/"
  else dir_path.

(** [dylib::dylib (const char *dir_path, const char *lib_name,
    bool decorations)] *)
Definition dylib_ctor (dir_path lib_name : option string) (decorations : bool)
  : M dylib :=
  match dir_path, lib_name with
  | Some dir_path, Some lib_name =>
      let final_name := final_name_of lib_name decorations in
      let final_path := final_path_of dir_path in
      let* handle := lift (open_lib (c_str (final_path ++ final_name))) in
      if handle =? 0 then
        let* description := lift get_error_description in
        throw (load_error ("Could not load library '" ++ final_path
                           ++ final_name ++ "'" ++ newline ++ description))
      else
        match T with
        | Windows => ret {| m_handle := handle; m_fd := m_fd_init H |}
        | Posix =>
            let* fd := lift (posix_open (c_str (final_path ++ final_name))) in
            if fd <? 0 then throw (load_error "Could not read library file")
            else ret {| m_handle := handle; m_fd := fd |}
        end
  | _, _ => throw (invalid_argument "Null parameter")
  end.

(** [dylib::~dylib ()] *)
Definition dylib_dtor (d : dylib) : IO unit :=
  fun w =>
    let w1 := if negb (m_handle d =? 0)
              then snd (close_lib (m_handle d) w) else w in
    match T with
    | Windows => (tt, w1)
    | Posix => if m_fd d >? -1 then posix_close (m_fd d) w1 else (tt, w1)
    end.

(** An object with automatic storage that the scope only reads:
    [{ const dylib lib (dir_path, lib_name, decorations); body }].  The
    body is handed the value of the object and can call the const member
    functions on it; it cannot move from it or assign to it.  The
    destructor runs when the scope is left, by return or by exception,
    for an object whose constructor completed; when the constructor
    throws there is no object and no destructor call: the members are a
    pointer and an [int], whose own destruction does nothing. *)
Definition scoped {A : Type} (dir_path lib_name : option string)
    (decorations : bool) (body : dylib -> M A) : M A :=
  fun w =>
    match dylib_ctor dir_path lib_name decorations w with
    | (Thrown e, w1) => (Thrown e, w1)
    | (Returned lib, w1) =>
        let (r, w2) := body lib w1 in
        (r, snd (dylib_dtor lib w2))
    end.

(** *** Moves

    Objects live in a store, by address, so that [this != &other] can be
    asked.  An operation on an address that holds no object has no
    result. *)

Definition set_m_handle (addr : Z) (v : Z) (st : gmap Z dylib) : gmap Z dylib :=
  alter (fun d => {| m_handle := v; m_fd := m_fd d |}) addr st.

Definition get_m_handle (addr : Z) (st : gmap Z dylib) : Z :=
  match st !! addr with
  | Some d => m_handle d
  | None => 0
  end.

(** [std::swap (a.m_handle, b.m_handle)] *)
Definition swap_m_handle (a b : Z) (st : gmap Z dylib) : gmap Z dylib :=
  let tmp := get_m_handle a st in
  let st1 := set_m_handle a (get_m_handle b st) st in
  set_m_handle b tmp st1.

(** [dylib::dylib (dylib &&other)]: the new object is built at [this],
    which holds no object yet; only [m_handle] is in the initializer
    list, [m_fd] takes its default member initializer. *)
Definition dylib_move_ctor (this other : Z) (st : gmap Z dylib)
  : option (gmap Z dylib) :=
  match st !! this, st !! other with
  | None, Some o =>
      let st1 := <[this := {| m_handle := m_handle o; m_fd := m_fd_init H |}]> st in
      Some (set_m_handle other 0 st1)
  | _, _ => None
  end.

(** [dylib &dylib::operator= (dylib &&other)] *)
Definition dylib_move_assign (this other : Z) (st : gmap Z dylib)
  : option (gmap Z dylib) :=
  match st !! this, st !! other with
  | Some _, Some _ =>
      if negb (this =? other) then Some (swap_m_handle this other st)
      else Some st
  | _, _ => None
  end.

(** *** Symbols *)

(** [std::vector<std::string> dylib::symbols (symbol_params params)]:
    the reader gets the handle and, in the POSIX build, [m_fd]; a
    [std::string] it throws is caught and thrown again as a
    [symbol_error]. *)
Definition symbols (d : dylib) (params : symbol_params) : M (list string) :=
  fun w =>
    let fd := DYLIB_WIN_OTHER T None (Some (m_fd d)) in
    let w' := log (Call_get_symbols (m_handle d) fd
                     (demangle params) (loadable params)) w in
    match get_symbols E (m_handle d) fd (demangle params) (loadable params) with
    | inr names => (Returned names, w')
    | inl e => (Thrown (symbol_error e), w')
    end.

(** The test of the loop of [get_symbol]:
    [demangled.find (symbol_name) == 0 &&
     (demangled[strlen (symbol_name)] == '(' ||
      demangled[strlen (symbol_name)] == '\0')] *)
Definition symbol_matches (symbol_name demangled : string) : bool :=
  pos_eqb (find demangled symbol_name) (Some 0%nat)
  && (Ascii.eqb (at_index demangled (size symbol_name)) "("
      || Ascii.eqb (at_index demangled (size symbol_name)) zero).

(** The loop over [all_symbols], which appends to [matching_symbols]. *)
Fixpoint collect_matching (symbol_name : string)
    (all_symbols matching_symbols : list string) : list string :=
  match all_symbols with
  | [] => matching_symbols
  | sym :: rest =>
      let demangled := get_demangled_name E (c_str sym) in
      if empty demangled then
        collect_matching symbol_name rest matching_symbols
      else if symbol_matches symbol_name demangled then
        collect_matching symbol_name rest (matching_symbols ++ [sym])%list
      else
        collect_matching symbol_name rest matching_symbols
  end.

(** The text of the two [symbol_error]s that carry a diagnostic. *)
Definition could_not_get (symbol_name description : string) : string :=
  "Could not get symbol '" ++ symbol_name ++ "'" ++ newline ++ description.

Definition multiple_matches (symbol_name : string) : string :=
  "Could not get symbol '" ++ symbol_name ++ "': multiple matches".

(** [native_symbol_type dylib::get_symbol (const char *symbol_name)] *)
Definition get_symbol (d : dylib) (symbol_name : option string) : M Z :=
  match symbol_name with
  | None => throw (invalid_argument "Null parameter")
  | Some symbol_name =>
      if m_handle d =? 0 then
        throw (logic_error "The dynamic library handle is null")
      else
        let* symbol := lift (locate_symbol (m_handle d) symbol_name) in
        if symbol =? 0 then
          let* all_symbols := symbols d (symbols_default H) in
          let matching_symbols := collect_matching symbol_name all_symbols [] in
          if Nat.eqb (List.length matching_symbols) 0 then
            let* description := lift get_error_description in
            throw (symbol_error (could_not_get symbol_name description))
          else if Nat.eqb (List.length matching_symbols) 1 then
            let* symbol :=
              lift (locate_symbol (m_handle d)
                      (c_str (List.hd "" matching_symbols))) in
            if symbol =? 0 then
              let* description := lift get_error_description in
              throw (symbol_error (could_not_get symbol_name description))
            else ret symbol
          else
            throw (symbol_error (multiple_matches symbol_name))
        else ret symbol
  end.

(** [native_symbol_type dylib::get_symbol (const std::string &)] *)
Definition get_symbol_string (d : dylib) (symbol_name : string) : M Z :=
  get_symbol d (Some (c_str symbol_name)).

(** [p + n] on a [char *]: an address is [ptr_bits] wide and the sum
    wraps round at that width. *)
Definition ptr_add (p n : Z) : Z := (p + n) mod 2 ^ ptr_bits.

(** [native_symbol_type dylib::get_symbol_by_offset (std::ptrdiff_t)]:
    [reinterpret_cast<char *> (m_handle) + offset], the native handle
    read as an address and the offset added to it. *)
Definition get_symbol_by_offset (d : dylib) (offset : Z) : M Z :=
  if m_handle d =? 0 then
    throw (logic_error "The dynamic library handle is null")
  else if offset <? 0 then
    throw (invalid_argument "Offset cannot be negative")
  else
    let symbol := ptr_add (m_handle d) offset in
    let* _ := lift (cout symbol) in
    ret symbol.

(** [bool dylib::has_symbol (const char *symbol_name) const noexcept] *)
Definition has_symbol (d : dylib) (symbol_name : option string) : IO bool :=
  fun w =>
    match symbol_name with
    | Some symbol_name =>
        if m_handle d =? 0 then (false, w)
        else
          let (symbol, w') := locate_symbol (m_handle d) symbol_name w in
          (negb (symbol =? 0), w')
    | None => (false, w)
    end.

(** [bool dylib::has_symbol (const std::string &) const noexcept] *)
Definition has_symbol_string (d : dylib) (symbol : string) : IO bool :=
  has_symbol d (Some (c_str symbol)).

(** [native_handle_type dylib::native_handle () noexcept] *)
Definition native_handle (d : dylib) : Z := m_handle d.

End Dylib.

(** ** The specification's words

    What the specification says of paths and of matching names, written
    down independently of the code above and compared with it below. *)

Module Spec.

(** [s] ends with the character [c]. *)
Fixpoint ends_with (s : string) (c : ascii) : bool :=
  match s with
  | EmptyString => false
  | String a EmptyString => Ascii.eqb a c
  | String _ s' => ends_with s' c
  end.

(** The logical name, wrapped with the prefix and the suffix when
    decorations are asked for. *)
Definition decorated (H : header) (name : string) (decorations : bool) : string :=
  if decorations then prefix H ++ name ++ suffix H else name.

(** The directory, a separator unless the directory is empty or ends
    with one already, then the name. *)
Definition composed_path (H : header) (dir name : string) (decorations : bool)
  : string :=
  if empty dir then decorated H name decorations
  else if ends_with dir "/" then dir ++ decorated H name decorations
  else dir ++ "/" ++ decorated H name decorations.

(** What is left of [s] after the prefix [p], if [p] is a prefix. *)
Fixpoint strip_prefix (p s : string) : option string :=
  match p, s with
  | EmptyString, _ => Some s
  | String a p', String b s' =>
      if Ascii.eqb a b then strip_prefix p' s' else None
  | String _ _, EmptyString => None
  end.

(** The rest is empty or starts with ['(']. *)
Definition paren_or_end (rest : string) : bool :=
  match rest with
  | EmptyString => true
  | String c _ => Ascii.eqb c "("
  end.

(** The demangled form has [name] as a prefix followed at once by ['(']
    or by the end of the string. *)
Definition demangled_matches (name demangled : string) : bool :=
  match strip_prefix name demangled with
  | Some rest => paren_or_end rest
  | None => false
  end.

(** No character of [s] is NUL: [s] is C text. *)
Fixpoint nul_free (s : string) : bool :=
  match s with
  | EmptyString => true
  | String a s' => negb (Ascii.eqb a zero) && nul_free s'
  end.

(** The symbols that demangle and whose demangled form matches. *)
Definition matching (E : env) (name : string) (all : list string) : list string :=
  List.filter
    (fun sym =>
       let demangled := get_demangled_name E sym in
       negb (empty demangled) && demangled_matches name demangled)
    all.

(** The names of a symbol table and their demangled forms are C text. *)
Definition c_text_symbols (E : env) (all : list string) : bool :=
  forallb (fun sym => nul_free sym && nul_free (get_demangled_name E sym)) all.

End Spec.

(** ** Reading a trace *)

(** The paths the loader was asked to open, oldest first. *)
Fixpoint loader_opens (cs : list call) : list string :=
  match cs with
  | [] => []
  | Call_open_lib path :: cs' => path :: loader_opens cs'
  | _ :: cs' => loader_opens cs'
  end.

(** The libraries the loader was asked to close, oldest first. *)
Fixpoint loader_closes (cs : list call) : list Z :=
  match cs with
  | [] => []
  | Call_close_lib lib :: cs' => lib :: loader_closes cs'
  | _ :: cs' => loader_closes cs'
  end.

(** The diagnostic [get_error_description] gives after the calls [cs]. *)
Definition error_text (T : target) (E : env) (cs : list call) : string :=
  fst (get_error_description T E {| libs := []; files := []; calls := cs |}).

(** The cleared state of the specification: null handle, no descriptor. *)
Definition cleared : dylib := {| m_handle := 0; m_fd := -1 |}.

(** What the specification asks of a move from [other] to [this]: the
    destination holds the handle and the descriptor the source had, and
    the source is cleared. *)
Definition move_transfers_all (before after : gmap Z dylib) (this other : Z) : Prop :=
  exists src,
    before !! other = Some src /\
    after !! this = Some src /\
    after !! other = Some cleared.

(** ** A sample configuration *)

(** Modelled from the spec: dylib.hpp, which declares the
    [filename_components], the initial [m_fd] and the default argument of
    [symbols], is not among the sources.  The specification gives
    ["lib"] and [".so"] as the decoration, [-1] as the absent descriptor,
    and has [get_symbol] demangle the enumerated names itself, so that
    the enumeration it asks for is the raw, unfiltered one. *)
Definition sample_header : header :=
  {| prefix := "lib";
     suffix := ".so";
     m_fd_init := -1;
     symbols_default := {| demangle := false; loadable := false |} |}.

(** A system with one library, /opt/lib/libcalc.so, that exports a C
    symbol, a function [add] and two overloads of [f]; and the C
    library, which the loader finds by its bare name on its search path
    although no file of that name is in the working directory. *)
Definition sample_env : env :=
  {| os_open_lib := fun path =>
       if String.eqb path "/opt/lib/libcalc.so" then 4096
       else if String.eqb path "libm.so.6" then 8192
       else 0;
     os_locate_symbol := fun lib name =>
       if lib =? 4096 then
         if String.eqb name "version" then 4352
         else if String.eqb name "_Z3addii" then 4608
         else if String.eqb name "_Z1fi" then 4864
         else if String.eqb name "_Z1fd" then 5120
         else 0
       else 0;
     os_dlerror := fun _ => Some "undefined symbol";
     os_GetLastError := fun _ => 127;
     os_FormatMessageA := fun _ => (42, "The specified procedure could not be found.");
     os_open := fun path =>
       if String.eqb path "/opt/lib/libcalc.so" then 3 else -1;
     get_symbols := fun lib fd dem load =>
       match fd with
       | Some 3 =>
           if lib =? 4096 then inr ["version"; "_Z3addii"; "_Z1fi"; "_Z1fd"]
           else inl "Invalid handle"
       | _ => inl "Could not read the symbol table"
       end;
     get_demangled_name := fun sym =>
       if String.eqb sym "_Z3addii" then "add(int, int)"
       else if String.eqb sym "_Z1fi" then "f(int)"
       else if String.eqb sym "_Z1fd" then "f(double)"
       else "" |}.

Definition empty_world : world := {| libs := []; files := []; calls := [] |}.

(** The loaded object the constructor gives for libcalc. *)
Definition calc : dylib := {| m_handle := 4096; m_fd := 3 |}.

(** Two loaded objects, at the addresses 16 and 32. *)
Definition two_objects : gmap Z dylib :=
  <[32 := {| m_handle := 8192; m_fd := 4 |}]> (<[16 := calc]> ∅).

(** ** Reading a trace: descriptors and queries *)

(** The descriptors [close] was called on, oldest first. *)
Fixpoint file_closes (cs : list call) : list Z :=
  match cs with
  | [] => []
  | Call_close fd :: cs' => fd :: file_closes cs'
  | _ :: cs' => file_closes cs'
  end.

(** A call that asks and neither acquires nor releases: a resolution, an
    enumeration, a diagnostic, a print. *)
Definition is_query (c : call) : bool :=
  match c with
  | Call_locate_symbol _ _ | Call_get_symbols _ _ _ _
  | Call_error_description | Call_cout _ => true
  | Call_open_lib _ | Call_close_lib _ | Call_open _ | Call_close _ => false
  end.

Definition is_locate_symbol (c : call) : bool :=
  match c with
  | Call_locate_symbol _ _ => true
  | _ => false
  end.

Definition is_get_symbols (c : call) : bool :=
  match c with
  | Call_get_symbols _ _ _ _ => true
  | _ => false
  end.

(** From [w] to [w'] only queries were made: the same libraries and
    descriptors are open, and the trace grew by queries. *)
Definition only_queries (w w' : world) : Prop :=
  libs w' = libs w /\
  files w' = files w /\
  exists cs, calls w' = (calls w ++ cs)%list /\ forallb is_query cs = true.

(** A world in which a library and a descriptor are open already. *)
Definition busy_world : world :=
  {| libs := [4096; 12288]; files := [3; 7]; calls := [Call_open_lib "other.so"] |}.

(** * Properties *)

(** ** Strings *)

Example find_last_of_slash : find_last_of "/usr/lib" "/" = Some 4%nat.
Proof. reflexivity. Qed.

Example find_last_of_none : find_last_of "build" "/" = npos.
Proof. reflexivity. Qed.

Example find_prefix : find "add(int, int)" "add" = Some 0%nat.
Proof. reflexivity. Qed.

Example find_inside : find "ns::add(int)" "add" = Some 4%nat.
Proof. reflexivity. Qed.

Example at_index_end :
  at_index "add" 3 = zero /\ at_index "add(int)" 3 = "("%char.
Proof. split; reflexivity. Qed.

Example c_str_stops_at_nul : c_str (String "f" (String zero "x")) = "f".
Proof. reflexivity. Qed.

Example final_path_of_cases :
  final_path_of "" = "" /\
  final_path_of "/opt/lib" = "/opt/lib/" /\
  final_path_of "/opt/lib/" = "/opt/lib/" /\
  final_path_of "a/b" = "a/b/".
Proof. repeat split. Qed.

Lemma ascii_eqb_true (a b : ascii) : Ascii.eqb a b = true <-> a = b.
Proof. apply Ascii.eqb_eq. Qed.

Lemma string_app_nil_l (s : string) : "" ++ s = s.
Proof. reflexivity. Qed.

Lemma string_app_cons (a : ascii) (s t : string) :
  String a s ++ t = String a (s ++ t).
Proof. reflexivity. Qed.

Lemma string_app_nil_r (s : string) : s ++ "" = s.
Proof.
  induction s as [|a s IH]; [reflexivity|].
  now rewrite string_app_cons, IH.
Qed.

Lemma string_app_assoc (a b c : string) : (a ++ b) ++ c = a ++ b ++ c.
Proof.
  induction a as [|x a IH]; [reflexivity|].
  now rewrite !string_app_cons, IH.
Qed.

Lemma string_length_app (a b : string) :
  String.length (a ++ b) = (String.length a + String.length b)%nat.
Proof.
  induction a as [|x a IH]; [reflexivity|].
  rewrite string_app_cons. simpl. now rewrite IH.
Qed.

(** [ends_with] says what it should: the string is some text and then
    the character. *)
Lemma ends_with_correct (s : string) (c : ascii) :
  Spec.ends_with s c = true <-> exists s0, s = s0 ++ String c "".
Proof.
  induction s as [|a s IH].
  - simpl. split; [discriminate | intros [[|b s0] Hs0]; discriminate Hs0].
  - destruct s as [|b s].
    + simpl. rewrite ascii_eqb_true. split.
      * intros ->. now exists "".
      * intros [[|x [|y s0]] Hs0]; now inversion Hs0.
    + change (Spec.ends_with (String a (String b s)) c)
        with (Spec.ends_with (String b s) c).
      rewrite IH. split.
      * intros [s0 Hs0]. exists (String a s0).
        now rewrite string_app_cons, <- Hs0.
      * intros [[|x s0] Hs0]; inversion Hs0; subst.
        now exists s0.
Qed.

Lemma nul_free_app (a b : string) :
  Spec.nul_free (a ++ b) = Spec.nul_free a && Spec.nul_free b.
Proof.
  induction a as [|x a IH]; [reflexivity|].
  rewrite string_app_cons. simpl. now rewrite IH, andb_assoc.
Qed.

(** [c_str] leaves C text as it is. *)
Lemma c_str_nul_free (s : string) : Spec.nul_free s = true -> c_str s = s.
Proof.
  induction s as [|a s IH]; [reflexivity|]. simpl.
  intros Hs. apply andb_prop in Hs as [Ha Hs]. apply negb_true_iff in Ha.
  now rewrite Ha, IH.
Qed.

(** What [c_str] gives is C text. *)
Lemma nul_free_c_str (s : string) : Spec.nul_free (c_str s) = true.
Proof.
  induction s as [|a s IH]; [reflexivity|]. simpl.
  destruct (Ascii.eqb a zero) eqn:Ha; [reflexivity|]. simpl.
  now rewrite Ha, IH.
Qed.

(** On a string that is not empty, the comparison of the source,
    [find_last_of (c) == size () - 1], asks whether the string ends with
    [c]. *)
Lemma find_last_of_from_last (s : string) (c : ascii) :
  forall i a,
    pos_eqb (find_last_of_from i (String a s) c)
            (Some (i + String.length s)%nat)
    = Spec.ends_with (String a s) c.
Proof.
  induction s as [|b s IH]; intros i a.
  - simpl. destruct (Ascii.eqb a c); simpl; [|reflexivity].
    rewrite Nat.add_0_r. apply Nat.eqb_refl.
  - change (Spec.ends_with (String a (String b s)) c)
      with (Spec.ends_with (String b s) c).
    rewrite <- (IH (S i) b).
    change (find_last_of_from i (String a (String b s)) c)
      with (match find_last_of_from (S i) (String b s) c with
            | Some j => Some j
            | None => if Ascii.eqb a c then Some i else npos
            end).
    destruct (find_last_of_from (S i) (String b s) c) as [k|] eqn:Hk.
    + simpl. f_equal. lia.
    + destruct (Ascii.eqb a c); simpl; [|reflexivity].
      apply Nat.eqb_neq. lia.
Qed.

Lemma find_last_of_is_last (s : string) (c : ascii) :
  empty s = false ->
  pos_eqb (find_last_of s c) (size_minus_one s) = Spec.ends_with s c.
Proof.
  destruct s as [|a s]; [discriminate|]. intros _.
  unfold find_last_of, size_minus_one, size. simpl String.length.
  apply (find_last_of_from_last s c 0 a).
Qed.

(** The directory part the constructor builds is the one of the
    specification. *)
Lemma final_path_of_spec (dir : string) :
  final_path_of dir =
    if empty dir then dir
    else if Spec.ends_with dir "/" then dir else dir ++ "/".
Proof.
  unfold final_path_of. destruct (empty dir) eqn:He; simpl; [reflexivity|].
  rewrite (find_last_of_is_last _ _ He).
  now destruct (Spec.ends_with dir "/").
Qed.

Lemma composed_path_spec (H : header) (dir name : string) (decorations : bool) :
  final_path_of dir ++ final_name_of H name decorations
  = Spec.composed_path H dir name decorations.
Proof.
  rewrite final_path_of_spec. unfold Spec.composed_path, final_name_of, Spec.decorated.
  destruct dir as [|a dir]; [reflexivity|]. simpl empty. cbv iota.
  destruct (Spec.ends_with (String a dir) "/"); [reflexivity|].
  now rewrite string_app_assoc.
Qed.

(** ** Traces *)

Lemma loader_opens_app (cs ds : list call) :
  loader_opens (cs ++ ds) = (loader_opens cs ++ loader_opens ds)%list.
Proof.
  induction cs as [|c cs IH]; [reflexivity|].
  destruct c; simpl; now rewrite IH.
Qed.

Lemma loader_closes_app (cs ds : list call) :
  loader_closes (cs ++ ds) = (loader_closes cs ++ loader_closes ds)%list.
Proof.
  induction cs as [|c cs IH]; [reflexivity|].
  destruct c; simpl; now rewrite IH.
Qed.

(** ** Construction *)

(** The path the specification composes is C text when its parts are. *)
Lemma composed_path_nul_free
    (H : header) (dir name : string) (decorations : bool) :
  Spec.nul_free dir = true ->
  Spec.nul_free name = true ->
  Spec.nul_free (prefix H) = true ->
  Spec.nul_free (suffix H) = true ->
  Spec.nul_free (Spec.composed_path H dir name decorations) = true.
Proof.
  intros Hd Hn Hp Hs.
  assert (Hdec : Spec.nul_free (Spec.decorated H name decorations) = true).
  { unfold Spec.decorated. destruct decorations; [|exact Hn].
    now rewrite !nul_free_app, Hp, Hn, Hs. }
  unfold Spec.composed_path. destruct (empty dir); [exact Hdec|].
  destruct (Spec.ends_with dir "/"); rewrite !nul_free_app, Hd, Hdec;
    reflexivity.
Qed.

(** The calls of the constructor to the loader, on every path through
    it: one, on the composed path read as C text. *)
Lemma ctor_loader_trace
    (T : target) (H : header) (E : env) (dir name : string)
    (decorations : bool) (w : world) :
  loader_opens
    (calls (snd (dylib_ctor T H E (Some dir) (Some name) decorations w)))
  = (loader_opens (calls w)
       ++ [c_str (Spec.composed_path H dir name decorations)])%list.
Proof.
  unfold dylib_ctor, bind, lift, open_lib.
  rewrite composed_path_spec.
  set (path := c_str (Spec.composed_path H dir name decorations)).
  destruct (os_open_lib E path =? 0); cbn -[String.append].
  - rewrite !loader_opens_app. cbn. now rewrite app_nil_r.
  - destruct T; cbn -[String.append].
    + now rewrite loader_opens_app.
    + destruct (os_open E path <? 0); cbn; rewrite !loader_opens_app; cbn;
        now rewrite app_nil_r.
Qed.

(** C7: for a directory and a name that are not null, the constructor
    calls the platform loader exactly once, on the path the
    specification composes: the name, wrapped with the prefix and the
    suffix when decorations are asked for, after the directory and, when
    the directory is not empty and does not end with the separator, a
    separator.  The directory, the name and the decorations are C text:
    they hold no NUL. *)
Theorem ctor_loads_composed_path_once
    (T : target) (H : header) (E : env) (dir name : string)
    (decorations : bool) (w : world) :
  Spec.nul_free dir = true ->
  Spec.nul_free name = true ->
  Spec.nul_free (prefix H) = true ->
  Spec.nul_free (suffix H) = true ->
  loader_opens
    (calls (snd (dylib_ctor T H E (Some dir) (Some name) decorations w)))
  = (loader_opens (calls w)
       ++ [Spec.composed_path H dir name decorations])%list.
Proof.
  intros Hd Hn Hp Hs. rewrite ctor_loader_trace.
  now rewrite (c_str_nul_free _ (composed_path_nul_free H dir name decorations
                                   Hd Hn Hp Hs)).
Qed.

Lemma ctor_loads_composed_path_once_witness :
  loader_opens
    (calls (snd (dylib_ctor Posix sample_header sample_env
                   (Some "/opt/lib") (Some "calc") true empty_world)))
  = ["/opt/lib/libcalc.so"].
Proof.
  apply (ctor_loads_composed_path_once Posix sample_header sample_env
           "/opt/lib" "calc" true empty_world); reflexivity.
Defined.

(** When the loader gives a library and the file cannot be opened, the
    POSIX constructor throws [load_error] with the library still open:
    nothing closes it before the throw, and no destructor runs for an
    object that was never built. *)
Lemma ctor_fd_failure_keeps_library
    (H : header) (E : env) (A : Type) (body : dylib -> M A)
    (dir name : string) (decorations : bool) (w : world) :
  let path := c_str (Spec.composed_path H dir name decorations) in
  os_open_lib E path <> 0 ->
  os_open E path < 0 ->
  scoped Posix H E (Some dir) (Some name) decorations body w
  = (Thrown (load_error "Could not read library file"),
     {| libs := (libs w ++ [os_open_lib E path])%list;
        files := files w;
        calls := (calls w ++ [Call_open_lib path; Call_open path])%list |}).
Proof.
  intros path Hlib Hfd.
  unfold scoped, dylib_ctor, bind, lift, open_lib, posix_open.
  rewrite composed_path_spec. fold path.
  apply Z.eqb_neq in Hlib. apply Z.ltb_lt in Hfd.
  cbn -[String.append]. rewrite Hlib. cbn -[String.append]. rewrite Hfd.
  cbn. now rewrite <- app_assoc.
Qed.

(** In that case the loader is not asked to close anything. *)
Lemma ctor_fd_failure_never_closes
    (H : header) (E : env) (A : Type) (body : dylib -> M A)
    (dir name : string) (decorations : bool) (w : world) :
  let path := c_str (Spec.composed_path H dir name decorations) in
  os_open_lib E path <> 0 ->
  os_open E path < 0 ->
  loader_closes
    (calls (snd (scoped Posix H E (Some dir) (Some name) decorations body w)))
  = loader_closes (calls w).
Proof.
  intros path Hlib Hfd.
  rewrite (ctor_fd_failure_keeps_library H E A body dir name decorations w
             Hlib Hfd).
  cbn [snd calls]. rewrite loader_closes_app. cbn. apply app_nil_r.
Qed.

(** C1, at a failing input: the C library is given by its bare name; the
    loader finds it on its search path, [open] does not find the file in
    the working directory.  The scope is left with [load_error], the
    loader was never asked to close the library, and the library stays
    open. *)
Theorem ctor_fd_failure_leaks_library :
  forall (A : Type) (body : dylib -> M A),
    scoped Posix sample_header sample_env (Some "") (Some "libm.so.6") false
      body empty_world
    = (Thrown (load_error "Could not read library file"),
       {| libs := [8192];
          files := [];
          calls := [Call_open_lib "libm.so.6"; Call_open "libm.so.6"] |}).
Proof. intros A body. reflexivity. Qed.

(** A construction that succeeds is undone by the destructor: the
    sibling path releases the library and the descriptor. *)
Example scoped_success_releases :
  scoped Posix sample_header sample_env (Some "/opt/lib") (Some "calc") true
    (fun lib => ret (m_handle lib, m_fd lib)) empty_world
  = (Returned (4096, 3),
     {| libs := [];
        files := [];
        calls := [Call_open_lib "/opt/lib/libcalc.so";
                  Call_open "/opt/lib/libcalc.so";
                  Call_close_lib 4096;
                  Call_close 3] |}).
Proof. reflexivity. Qed.

(** ** Moves *)

Lemma lookup_set_m_handle (addr addr' v : Z) (st : gmap Z dylib) :
  set_m_handle addr v st !! addr'
  = if decide (addr = addr')
    then (fun d => {| m_handle := v; m_fd := m_fd d |}) <$> st !! addr'
    else st !! addr'.
Proof.
  unfold set_m_handle. rewrite lookup_alter.
  destruct (decide (addr = addr')) as [->|]; reflexivity.
Qed.

(** C2, as stated, fails: move-assignment between two loaded objects
    swaps the native handles and leaves both descriptors in place, so the
    source still holds a library and a descriptor afterwards. *)
Lemma move_assign_source_not_cleared :
  exists st',
    dylib_move_assign 16 32 two_objects = Some st' /\
    st' !! 16 = Some {| m_handle := 8192; m_fd := 3 |} /\
    st' !! 32 = Some {| m_handle := 4096; m_fd := 4 |} /\
    ~ move_transfers_all two_objects st' 16 32.
Proof.
  eexists. split; [reflexivity|].
  assert (H16 : swap_m_handle 16 32 two_objects !! 16
                = Some {| m_handle := 8192; m_fd := 3 |}) by reflexivity.
  assert (H32 : swap_m_handle 16 32 two_objects !! 32
                = Some {| m_handle := 4096; m_fd := 4 |}) by reflexivity.
  split; [exact H16|]. split; [exact H32|].
  intros (src & _ & _ & Hsrc). rewrite H32 in Hsrc. discriminate Hsrc.
Qed.

(** C2, amended: a move hands the native handle over.  The move
    constructor gives the new object the handle of the source and leaves
    the source with a null handle; move-assignment between two different
    objects gives the destination the handle of the source and the
    source the handle the destination had. *)
Theorem move_transfers_native_handle
    (H : header) (st : gmap Z dylib) (other fresh this : Z) (src dst : dylib) :
  st !! other = Some src ->
  st !! fresh = None ->
  st !! this = Some dst ->
  this <> other ->
  (exists st',
      dylib_move_ctor H fresh other st = Some st' /\
      m_handle <$> st' !! fresh = Some (m_handle src) /\
      m_handle <$> st' !! other = Some 0)
  /\
  (exists st',
      dylib_move_assign this other st = Some st' /\
      m_handle <$> st' !! this = Some (m_handle src) /\
      m_handle <$> st' !! other = Some (m_handle dst)).
Proof.
  intros Hother Hfresh Hthis Hne.
  assert (Hfo : fresh <> other) by (intros ->; congruence).
  split.
  - unfold dylib_move_ctor. rewrite Hfresh, Hother.
    eexists. split; [reflexivity|]. rewrite !lookup_set_m_handle.
    destruct (decide (other = fresh)) as [Heq|_]; [congruence|].
    destruct (decide (other = other)) as [_|Hn]; [|congruence].
    rewrite lookup_insert_eq, lookup_insert_ne, Hother by congruence.
    split; reflexivity.
  - unfold dylib_move_assign. rewrite Hthis, Hother.
    apply Z.eqb_neq in Hne as Hneb. rewrite Hneb. cbn [negb].
    eexists. split; [reflexivity|].
    unfold swap_m_handle, get_m_handle. rewrite Hthis, Hother.
    rewrite !lookup_set_m_handle.
    destruct (decide (other = this)) as [Heq|_]; [congruence|].
    destruct (decide (this = this)) as [_|Hn]; [|congruence].
    destruct (decide (other = other)) as [_|Hn]; [|congruence].
    destruct (decide (this = other)) as [Heq|_]; [congruence|].
    rewrite Hthis, Hother. split; reflexivity.
Qed.

Lemma move_transfers_native_handle_witness :
  (exists st',
      dylib_move_ctor sample_header 48 32 two_objects = Some st' /\
      m_handle <$> st' !! 48 = Some 8192 /\
      m_handle <$> st' !! 32 = Some 0)
  /\
  (exists st',
      dylib_move_assign 16 32 two_objects = Some st' /\
      m_handle <$> st' !! 16 = Some 8192 /\
      m_handle <$> st' !! 32 = Some 4096).
Proof.
  apply (move_transfers_native_handle sample_header two_objects 32 48 16
           {| m_handle := 8192; m_fd := 4 |} calc);
    [reflexivity | reflexivity | reflexivity | lia].
Defined.

(** Neither move touches a descriptor: the new object of the move
    constructor starts with the initial [m_fd] of the header, and every
    object that was there keeps the descriptor it had. *)
Lemma moves_leave_descriptors
    (H : header) (st : gmap Z dylib) (this other addr : Z) (d : dylib) :
  st !! addr = Some d ->
  (forall st',
      dylib_move_ctor H this other st = Some st' ->
      m_fd <$> st' !! addr = Some (m_fd d)
      /\ m_fd <$> st' !! this = Some (m_fd_init H))
  /\ (forall st',
         dylib_move_assign this other st = Some st' ->
         m_fd <$> st' !! addr = Some (m_fd d)).
Proof.
  intros Haddr. split.
  - intros st'. unfold dylib_move_ctor.
    destruct (st !! this) as [|] eqn:Hthis; [discriminate|].
    destruct (st !! other) as [o|] eqn:Hother; [|discriminate].
    intros [= <-]. rewrite !lookup_set_m_handle.
    assert (Hne : this <> addr) by (intros ->; congruence).
    assert (Hto : other <> this) by (intros ->; congruence).
    destruct (decide (other = this)) as [Heq|_]; [congruence|].
    rewrite lookup_insert_eq, lookup_insert_ne, Haddr by exact Hne.
    split; [|reflexivity].
    now destruct (decide (other = addr)).
  - intros st'. unfold dylib_move_assign.
    destruct (st !! this) as [a|] eqn:Hthis; [|discriminate].
    destruct (st !! other) as [b|] eqn:Hother; [|discriminate].
    destruct (negb (this =? other)); intros [= <-]; [|now rewrite Haddr].
    unfold swap_m_handle. rewrite !lookup_set_m_handle.
    destruct (decide (other = addr)), (decide (this = addr));
      now rewrite Haddr.
Qed.

(** C9: move-assigning an object to itself changes nothing: the store,
    and with it the handle and the descriptor of the object, is the one
    before. *)
Theorem self_move_assign_is_noop (st : gmap Z dylib) (this : Z) (d : dylib) :
  st !! this = Some d ->
  dylib_move_assign this this st = Some st.
Proof.
  intros Hthis. unfold dylib_move_assign. rewrite Hthis.
  now rewrite Z.eqb_refl.
Qed.

Lemma self_move_assign_is_noop_witness :
  dylib_move_assign 16 16 two_objects = Some two_objects.
Proof.
  apply (self_move_assign_is_noop two_objects 16 calc). reflexivity.
Defined.

(** ** Matching demangled names *)

Lemma find_from_ge (p s : string) :
  forall i j, find_from i s p = Some j -> (i <= j)%nat.
Proof.
  induction s as [|a s IH]; intros i j; simpl.
  - destruct (starts_with p ""); [intros [= <-]; lia | discriminate].
  - destruct (starts_with p (String a s)); [intros [= <-]; lia|].
    intros Hj. apply IH in Hj. lia.
Qed.

(** [s.find (p) == 0] asks whether [s] starts with [p]. *)
Lemma find_at_zero (s p : string) :
  pos_eqb (find s p) (Some 0%nat) = starts_with p s.
Proof.
  unfold find. destruct s as [|a s]; simpl.
  - now destruct (starts_with p "").
  - destruct (starts_with p (String a s)); [reflexivity|].
    destruct (find_from 1 s p) as [j|] eqn:Hj; [|reflexivity].
    apply find_from_ge in Hj. simpl. apply Nat.eqb_neq. lia.
Qed.

(** [strip_prefix] says what it should: the string is the prefix and then
    the rest. *)
Lemma strip_prefix_correct (p s rest : string) :
  Spec.strip_prefix p s = Some rest <-> s = p ++ rest.
Proof.
  revert s. induction p as [|a p IH]; intros s.
  - simpl. rewrite string_app_nil_l. split; [now intros [= ->] | now intros ->].
  - rewrite string_app_cons. destruct s as [|b s]; simpl.
    + split; discriminate.
    + destruct (Ascii.eqb a b) eqn:Hab.
      * apply ascii_eqb_true in Hab as ->. rewrite IH.
        split; [now intros -> | now intros [= ->]].
      * split; [discriminate|]. intros [= -> _].
        rewrite Ascii.eqb_refl in Hab. discriminate Hab.
Qed.

(** The specification's match, in words: the demangled form is the name
    and then nothing, or the name and then text that starts with ['(']. *)
Lemma demangled_matches_correct (name demangled : string) :
  Spec.demangled_matches name demangled = true <->
  demangled = name \/ exists rest, demangled = name ++ String "(" rest.
Proof.
  unfold Spec.demangled_matches.
  destruct (Spec.strip_prefix name demangled) as [rest|] eqn:Hs.
  - apply strip_prefix_correct in Hs as ->. destruct rest as [|c rest]; simpl.
    + rewrite string_app_nil_r. split; [now left | reflexivity].
    + rewrite ascii_eqb_true. split.
      * intros ->. right. now exists rest.
      * intros [Heq | [rest' Heq]].
        -- exfalso. apply (f_equal String.length) in Heq.
           rewrite string_length_app in Heq. simpl in Heq. lia.
        -- assert (Hr : Spec.strip_prefix name (name ++ String c rest)
                         = Some (String "(" rest'))
             by now apply strip_prefix_correct.
           assert (Hl : Spec.strip_prefix name (name ++ String c rest)
                         = Some (String c rest))
             by now apply strip_prefix_correct.
           rewrite Hl in Hr. now inversion Hr.
  - split; [discriminate|]. intros [-> | [rest ->]].
    + assert (Hr : Spec.strip_prefix name name = Some "")
        by (apply strip_prefix_correct; now rewrite string_app_nil_r).
      congruence.
    + assert (Hr : Spec.strip_prefix name (name ++ String "(" rest)
                   = Some (String "(" rest))
        by now apply strip_prefix_correct.
      congruence.
Qed.

(** The selection of the specification, in words: a symbol of the table
    is selected when it demangles and its demangled form is the name, or
    the name and then text that starts with ['(']. *)
Lemma matching_correct (E : env) (name sym : string) (all : list string) :
  In sym (Spec.matching E name all) <->
  In sym all
  /\ get_demangled_name E sym <> ""
  /\ (get_demangled_name E sym = name
      \/ exists rest, get_demangled_name E sym = name ++ String "(" rest).
Proof.
  unfold Spec.matching. rewrite List.filter_In, andb_true_iff.
  rewrite demangled_matches_correct, negb_true_iff.
  assert (Hempty : empty (get_demangled_name E sym) = false
                   <-> get_demangled_name E sym <> "").
  { destruct (get_demangled_name E sym); simpl; split;
      congruence || discriminate. }
  rewrite Hempty. tauto.
Qed.

(** On a demangled form without NUL, the test of the loop is the match of
    the specification: only at the end of the string does indexing give
    NUL. *)
Lemma symbol_matches_spec (name demangled : string) :
  Spec.nul_free demangled = true ->
  symbol_matches name demangled = Spec.demangled_matches name demangled.
Proof.
  unfold symbol_matches, Spec.demangled_matches, size.
  rewrite find_at_zero.
  revert demangled. induction name as [|a name IH]; intros demangled Hnul.
  - destruct demangled as [|c rest]; [reflexivity|]. simpl in *.
    apply andb_prop in Hnul as [Hc _]. apply negb_true_iff in Hc.
    rewrite Hc. now rewrite orb_false_r.
  - destruct demangled as [|b rest]; [reflexivity|]. simpl in *.
    apply andb_prop in Hnul as [_ Hrest].
    destruct (Ascii.eqb a b); [now apply IH | reflexivity].
Qed.

(** Without that condition the two differ: after an embedded NUL the
    source sees the end of the string. *)
Example symbol_matches_embedded_nul :
  let demangled := String "f" (String zero "x") in
  symbol_matches "f" demangled = true /\
  Spec.demangled_matches "f" demangled = false.
Proof. split; reflexivity. Qed.

(** The loop collects, in order and after what it was given, the symbols
    that the specification selects. *)
Lemma collect_matching_spec (E : env) (name : string) (all : list string) :
  Spec.c_text_symbols E all = true ->
  forall acc,
    collect_matching E name all acc = (acc ++ Spec.matching E name all)%list.
Proof.
  unfold Spec.c_text_symbols.
  induction all as [|sym all IH]; intros Htext acc; simpl.
  - now rewrite app_nil_r.
  - simpl in Htext. apply andb_prop in Htext as [Hsym Hall].
    apply andb_prop in Hsym as [Hsym Hdem].
    rewrite (c_str_nul_free _ Hsym), (symbol_matches_spec _ _ Hdem).
    destruct (empty (get_demangled_name E sym)); simpl; [now apply IH|].
    destruct (Spec.demangled_matches name (get_demangled_name E sym)).
    + rewrite (IH Hall). now rewrite <- app_assoc.
    + now apply IH.
Qed.

(** A selected symbol is one of the table, and so C text. *)
Lemma matching_nul_free (E : env) (name sym : string) (all : list string) :
  Spec.c_text_symbols E all = true ->
  In sym (Spec.matching E name all) ->
  Spec.nul_free sym = true.
Proof.
  unfold Spec.c_text_symbols, Spec.matching. intros Htext Hin.
  apply List.filter_In in Hin as [Hin _].
  rewrite forallb_forall in Htext. specialize (Htext sym Hin).
  now apply andb_prop in Htext as [Hsym _].
Qed.

(** ** Enumeration *)

(** C8: when the symbol-table reader fails, with the text [e], [symbols]
    fails with [symbol_error] carrying that text. *)
Theorem symbols_reader_failure_is_symbol_error
    (T : target) (E : env) (d : dylib) (params : symbol_params) (w : world)
    (e : string) :
  get_symbols E (m_handle d) (DYLIB_WIN_OTHER T None (Some (m_fd d)))
    (demangle params) (loadable params) = inl e ->
  fst (symbols T E d params w) = Thrown (symbol_error e).
Proof. intros He. unfold symbols. now rewrite He. Qed.

Lemma symbols_reader_failure_is_symbol_error_witness :
  fst (symbols Posix sample_env {| m_handle := 4096; m_fd := -1 |}
         {| demangle := true; loadable := false |} empty_world)
  = Thrown (symbol_error "Could not read the symbol table").
Proof.
  apply (symbols_reader_failure_is_symbol_error Posix sample_env
           {| m_handle := 4096; m_fd := -1 |}
           {| demangle := true; loadable := false |} empty_world).
  reflexivity.
Defined.

(** C10: [symbols] does not look at the handle.  On an object whose
    handle is null it makes one call, to the reader, with the null handle
    and, in the POSIX build, the descriptor of the object; what it gives
    is what the reader gives, and never a [logic_error]. *)
Theorem symbols_forwards_null_handle
    (T : target) (E : env) (fd : Z) (params : symbol_params) (w : world) :
  let d := {| m_handle := 0; m_fd := fd |} in
  let passed := DYLIB_WIN_OTHER T None (Some fd) in
  calls (snd (symbols T E d params w))
  = (calls w
       ++ [Call_get_symbols 0 passed (demangle params) (loadable params)])%list
  /\ fst (symbols T E d params w)
     = match get_symbols E 0 passed (demangle params) (loadable params) with
       | inr names => Returned names
       | inl e => Thrown (symbol_error e)
       end
  /\ forall what, fst (symbols T E d params w) <> Thrown (logic_error what).
Proof.
  intros d passed. unfold symbols. cbn [m_handle m_fd d]. fold passed.
  destruct (get_symbols E 0 passed (demangle params) (loadable params));
    repeat split; discriminate.
Qed.

(** ** Resolution by name *)

(** C3: on a loaded object, for a name that the loader does not resolve
    directly, [get_symbol] asks the reader for all symbols; when the
    reader returns [all] (names and demangled forms being C text), it
    selects the symbols that demangle and whose demangled form is the
    name followed at once by ['('] or by the end.  None selected:
    [symbol_error] with the diagnostic.  One selected: that mangled name
    is resolved, and a null result is a [symbol_error].  More than one:
    [symbol_error] whose text says multiple matches, with no further
    call to the loader. *)
Theorem get_symbol_fallback
    (T : target) (H : header) (E : env) (d : dylib) (name : string)
    (all : list string) (w : world) :
  m_handle d <> 0 ->
  os_locate_symbol E (m_handle d) name = 0 ->
  get_symbols E (m_handle d) (DYLIB_WIN_OTHER T None (Some (m_fd d)))
    (demangle (symbols_default H)) (loadable (symbols_default H)) = inr all ->
  Spec.c_text_symbols E all = true ->
  let w2 :=
    log (Call_get_symbols (m_handle d) (DYLIB_WIN_OTHER T None (Some (m_fd d)))
           (demangle (symbols_default H)) (loadable (symbols_default H)))
      (log (Call_locate_symbol (m_handle d) name) w) in
  get_symbol T H E d (Some name) w
  = match Spec.matching E name all with
    | [] =>
        (Thrown (symbol_error
                   ("Could not get symbol '" ++ name ++ "'"
                    ++ String "010" (error_text T E (calls w2)))),
         log Call_error_description w2)
    | [only] =>
        let w3 := log (Call_locate_symbol (m_handle d) only) w2 in
        if os_locate_symbol E (m_handle d) only =? 0 then
          (Thrown (symbol_error
                     ("Could not get symbol '" ++ name ++ "'"
                      ++ String "010" (error_text T E (calls w3)))),
           log Call_error_description w3)
        else (Returned (os_locate_symbol E (m_handle d) only), w3)
    | _ :: _ :: _ =>
        (Thrown (symbol_error
                   ("Could not get symbol '" ++ name ++ "': multiple matches")),
         w2)
    end.
Proof.
  intros Hloaded Hdirect Henum Htext w2.
  unfold get_symbol. apply Z.eqb_neq in Hloaded. rewrite Hloaded.
  unfold bind at 1. unfold lift at 1, locate_symbol at 1.
  rewrite Hdirect. cbn [Z.eqb].
  unfold bind at 1. unfold symbols. rewrite Henum. fold w2.
  rewrite (collect_matching_spec E name all Htext []). cbn [app].
  pose proof (matching_nul_free E name) as Hsel.
  specialize (fun sym => Hsel sym all Htext).
  destruct (Spec.matching E name all) as [|only [|second rest]];
    cbn [List.length Nat.eqb List.hd].
  - reflexivity.
  - rewrite (c_str_nul_free only (Hsel only (or_introl eq_refl))).
    unfold bind, lift, locate_symbol. cbn [fst snd].
    destruct (os_locate_symbol E (m_handle d) only =? 0); reflexivity.
  - reflexivity.
Qed.

Lemma get_symbol_fallback_witness :
  get_symbol Posix sample_header sample_env calc (Some "add") empty_world
  = (Returned 4608,
     {| libs := []; files := [];
        calls := [Call_locate_symbol 4096 "add";
                  Call_get_symbols 4096 (Some 3) false false;
                  Call_locate_symbol 4096 "_Z3addii"] |})
  /\ get_symbol Posix sample_header sample_env calc (Some "f") empty_world
     = (Thrown (symbol_error "Could not get symbol 'f': multiple matches"),
        {| libs := []; files := [];
           calls := [Call_locate_symbol 4096 "f";
                     Call_get_symbols 4096 (Some 3) false false] |})
  /\ get_symbol Posix sample_header sample_env calc (Some "sub") empty_world
     = (Thrown (symbol_error
                  ("Could not get symbol 'sub'"
                   ++ String "010" "undefined symbol")),
        {| libs := []; files := [];
           calls := [Call_locate_symbol 4096 "sub";
                     Call_get_symbols 4096 (Some 3) false false;
                     Call_error_description] |}).
Proof.
  split; [|split].
  - apply (get_symbol_fallback Posix sample_header sample_env calc "add"
             ["version"; "_Z3addii"; "_Z1fi"; "_Z1fd"] empty_world);
      first [reflexivity | simpl; lia].
  - apply (get_symbol_fallback Posix sample_header sample_env calc "f"
             ["version"; "_Z3addii"; "_Z1fi"; "_Z1fd"] empty_world);
      first [reflexivity | simpl; lia].
  - apply (get_symbol_fallback Posix sample_header sample_env calc "sub"
             ["version"; "_Z3addii"; "_Z1fi"; "_Z1fd"] empty_world);
      first [reflexivity | simpl; lia].
Defined.

(** A name that the loader resolves is returned at once: the reader is
    not called. *)
Lemma get_symbol_direct_hit
    (T : target) (H : header) (E : env) (d : dylib) (name : string) (w : world) :
  m_handle d <> 0 ->
  os_locate_symbol E (m_handle d) name <> 0 ->
  get_symbol T H E d (Some name) w
  = (Returned (os_locate_symbol E (m_handle d) name),
     log (Call_locate_symbol (m_handle d) name) w).
Proof.
  intros Hloaded Hdirect. unfold get_symbol.
  apply Z.eqb_neq in Hloaded. rewrite Hloaded.
  unfold bind, lift, locate_symbol.
  apply Z.eqb_neq in Hdirect. now rewrite Hdirect.
Qed.

(** When the reader fails during the fallback, its [symbol_error] leaves
    [get_symbol] as it is. *)
Lemma get_symbol_fallback_reader_failure
    (T : target) (H : header) (E : env) (d : dylib) (name e : string)
    (w : world) :
  m_handle d <> 0 ->
  os_locate_symbol E (m_handle d) name = 0 ->
  get_symbols E (m_handle d) (DYLIB_WIN_OTHER T None (Some (m_fd d)))
    (demangle (symbols_default H)) (loadable (symbols_default H)) = inl e ->
  fst (get_symbol T H E d (Some name) w) = Thrown (symbol_error e).
Proof.
  intros Hloaded Hdirect Henum. unfold get_symbol.
  apply Z.eqb_neq in Hloaded. rewrite Hloaded.
  unfold bind at 1. unfold lift at 1, locate_symbol at 1.
  rewrite Hdirect. cbn [Z.eqb].
  unfold bind at 1. unfold symbols. now rewrite Henum.
Qed.

(** The three outcomes of the fallback on the sample library: a name no
    symbol demangles to, the name of one function, the name of two
    overloads. *)
Example get_symbol_no_match :
  fst (get_symbol Posix sample_header sample_env calc (Some "nonexistent")
         empty_world)
  = Thrown (symbol_error
              (could_not_get "nonexistent" "undefined symbol")).
Proof. reflexivity. Qed.

Example get_symbol_two_overloads :
  get_symbol Posix sample_header sample_env calc (Some "f") empty_world
  = (Thrown (symbol_error "Could not get symbol 'f': multiple matches"),
     {| libs := []; files := [];
        calls := [Call_locate_symbol 4096 "f";
                  Call_get_symbols 4096 (Some 3) false false] |}).
Proof. reflexivity. Qed.

(** A name that the loader resolves is returned at once. *)
Example get_symbol_direct :
  get_symbol Posix sample_header sample_env calc (Some "version") empty_world
  = (Returned 4352,
     {| libs := []; files := []; calls := [Call_locate_symbol 4096 "version"] |}).
Proof. reflexivity. Qed.

(** C5: [get_symbol] with a null name throws [invalid_argument], whatever
    the handle; with a name, on an object whose handle is null, it throws
    [logic_error], and so does the [std::string] overload, whose name is
    never null.  In both cases nothing is called and the world is as
    before: the null pointer is not read and the null handle is not
    given to the loader. *)
Theorem get_symbol_null_checks
    (T : target) (H : header) (E : env) (w : world) :
  (forall d : dylib,
      get_symbol T H E d None w
      = (Thrown (invalid_argument "Null parameter"), w))
  /\ (forall (fd : Z) (name : string),
         get_symbol T H E {| m_handle := 0; m_fd := fd |} (Some name) w
         = (Thrown (logic_error "The dynamic library handle is null"), w))
  /\ (forall (fd : Z) (name : string),
         get_symbol_string T H E {| m_handle := 0; m_fd := fd |} name w
         = (Thrown (logic_error "The dynamic library handle is null"), w)).
Proof. repeat split. Qed.

(** ** Resolution by offset *)

(** C4: [get_symbol_by_offset] throws [logic_error] when the handle is
    null; on a loaded object it throws [invalid_argument] for every
    negative offset and otherwise returns the handle, read as the base
    address, plus the offset, with no check against the symbol table:
    the only call it makes is the print of the address.  The sum is the
    one of the machine, at the width of a pointer; it is the exact sum
    whenever that lies in the address space, and offset 0 gives the
    handle itself. *)
Theorem get_symbol_by_offset_spec
    (ptr_bits : Z) (d : dylib) (offset : Z) (w : world) :
  (m_handle d = 0 ->
   get_symbol_by_offset ptr_bits d offset w
   = (Thrown (logic_error "The dynamic library handle is null"), w))
  /\ (m_handle d <> 0 -> offset < 0 ->
      get_symbol_by_offset ptr_bits d offset w
      = (Thrown (invalid_argument "Offset cannot be negative"), w))
  /\ (m_handle d <> 0 -> 0 <= offset ->
      get_symbol_by_offset ptr_bits d offset w
      = (Returned ((m_handle d + offset) mod 2 ^ ptr_bits),
         log (Call_cout ((m_handle d + offset) mod 2 ^ ptr_bits)) w))
  /\ (0 < m_handle d -> 0 <= offset -> m_handle d + offset < 2 ^ ptr_bits ->
      get_symbol_by_offset ptr_bits d offset w
      = (Returned (m_handle d + offset),
         log (Call_cout (m_handle d + offset)) w))
  /\ (0 < m_handle d < 2 ^ ptr_bits ->
      get_symbol_by_offset ptr_bits d 0 w
      = (Returned (m_handle d), log (Call_cout (m_handle d)) w)).
Proof.
  assert (Hwrap : m_handle d <> 0 -> 0 <= offset ->
            get_symbol_by_offset ptr_bits d offset w
            = (Returned ((m_handle d + offset) mod 2 ^ ptr_bits),
               log (Call_cout ((m_handle d + offset) mod 2 ^ ptr_bits)) w)).
  { intros Hh Ho. unfold get_symbol_by_offset, ptr_add.
    apply Z.eqb_neq in Hh. apply Z.ltb_ge in Ho. now rewrite Hh, Ho. }
  split; [|split; [|split; [|split]]].
  - intros Hh. unfold get_symbol_by_offset. now rewrite Hh.
  - intros Hh Ho. unfold get_symbol_by_offset.
    apply Z.eqb_neq in Hh. apply Z.ltb_lt in Ho. now rewrite Hh, Ho.
  - exact Hwrap.
  - intros Hh Ho Hfit. rewrite Hwrap by lia.
    now rewrite Z.mod_small by lia.
  - intros [Hpos Hfit]. unfold get_symbol_by_offset, ptr_add.
    assert (Hh : (m_handle d =? 0) = false) by (apply Z.eqb_neq; lia).
    rewrite Hh. cbn [Z.ltb Z.compare].
    rewrite Z.add_0_r, Z.mod_small by lia. reflexivity.
Qed.

Lemma get_symbol_by_offset_spec_witness :
  get_symbol_by_offset 64 {| m_handle := 0; m_fd := -1 |} (-8) empty_world
  = (Thrown (logic_error "The dynamic library handle is null"), empty_world)
  /\ get_symbol_by_offset 64 calc (-8) empty_world
     = (Thrown (invalid_argument "Offset cannot be negative"), empty_world)
  /\ get_symbol_by_offset 32 {| m_handle := 3086999552; m_fd := 3 |}
       1342177280 empty_world
     = (Returned 134209536, log (Call_cout 134209536) empty_world)
  /\ get_symbol_by_offset 64 calc 512 empty_world
     = (Returned 4608, log (Call_cout 4608) empty_world)
  /\ get_symbol_by_offset 64 calc 0 empty_world
     = (Returned 4096, log (Call_cout 4096) empty_world).
Proof.
  split; [|split; [|split; [|split]]].
  - apply (get_symbol_by_offset_spec 64 {| m_handle := 0; m_fd := -1 |} (-8)
             empty_world).
    reflexivity.
  - apply (get_symbol_by_offset_spec 64 calc (-8) empty_world); simpl; lia.
  - apply (get_symbol_by_offset_spec 32 {| m_handle := 3086999552; m_fd := 3 |}
             1342177280 empty_world); simpl; lia.
  - apply (get_symbol_by_offset_spec 64 calc 512 empty_world); simpl; lia.
  - apply (get_symbol_by_offset_spec 64 calc 0 empty_world); simpl; lia.
Defined.

(** ** Probing *)

(** C6: [has_symbol] returns a [bool] in every case.  It is [false], and
    nothing is called, when the handle is null or the name is null.
    Otherwise it makes one call, the direct resolution of the name as
    given, and returns whether the address is not null: the reader and
    the demangler are not used. *)
Theorem has_symbol_spec (E : env) (d : dylib) (name : string) (w : world) :
  (forall (fd : Z) (symbol_name : option string),
      has_symbol E {| m_handle := 0; m_fd := fd |} symbol_name w = (false, w))
  /\ has_symbol E d None w = (false, w)
  /\ (m_handle d <> 0 ->
      has_symbol E d (Some name) w
      = (negb (os_locate_symbol E (m_handle d) name =? 0),
         log (Call_locate_symbol (m_handle d) name) w))
  /\ (m_handle d <> 0 ->
      (fst (has_symbol E d (Some name) w) = true
       <-> os_locate_symbol E (m_handle d) name <> 0)).
Proof.
  unfold has_symbol, locate_symbol. split; [|split; [|split]].
  - intros fd symbol_name. now destruct symbol_name.
  - reflexivity.
  - intros Hh. apply Z.eqb_neq in Hh. now rewrite Hh.
  - intros Hh. apply Z.eqb_neq in Hh. rewrite Hh. cbn [fst].
    rewrite negb_true_iff. apply Z.eqb_neq.
Qed.

Lemma has_symbol_spec_witness :
  has_symbol sample_env calc (Some "version") empty_world
  = (true, log (Call_locate_symbol 4096 "version") empty_world)
  /\ has_symbol sample_env calc (Some "add") empty_world
     = (false, log (Call_locate_symbol 4096 "add") empty_world).
Proof.
  split.
  - apply (has_symbol_spec sample_env calc "version" empty_world). simpl. lia.
  - apply (has_symbol_spec sample_env calc "add" empty_world). simpl. lia.
Defined.

(** * Further properties *)

(** ** Construction, continued *)

Lemma file_closes_app (cs ds : list call) :
  file_closes (cs ++ ds) = (file_closes cs ++ file_closes ds)%list.
Proof.
  induction cs as [|c cs IH]; [reflexivity|].
  destruct c; simpl; now rewrite IH.
Qed.

(** X1: the constructor throws [invalid_argument] exactly when the
    directory or the name is null, and then it has called nothing: the
    world is the one before. *)
Theorem ctor_invalid_argument_iff_null
    (T : target) (H : header) (E : env) (dir_path lib_name : option string)
    (decorations : bool) (w : world) :
  (fst (dylib_ctor T H E dir_path lib_name decorations w)
   = Thrown (invalid_argument "Null parameter")
   <-> dir_path = None \/ lib_name = None)
  /\ (dir_path = None \/ lib_name = None ->
      snd (dylib_ctor T H E dir_path lib_name decorations w) = w).
Proof.
  split.
  - split.
    + destruct dir_path as [dir|], lib_name as [name|]; auto.
      unfold dylib_ctor, bind, lift, open_lib. cbn -[String.append].
      destruct (os_open_lib E _ =? 0); cbn -[String.append];
        [discriminate|].
      destruct T; cbn -[String.append]; [discriminate|].
      destruct (os_open E _ <? 0); discriminate.
    + intros [-> | ->]; [reflexivity|]. now destruct dir_path.
  - intros [-> | ->]; [reflexivity|]. now destruct dir_path.
Qed.

(** X2: when the loader gives no library, the constructor throws
    [load_error]; the message names the composed path and ends with the
    diagnostic of the platform; the file is not opened and nothing is
    left open. *)
Theorem ctor_loader_failure
    (T : target) (H : header) (E : env) (dir name : string)
    (decorations : bool) (w : world) :
  let composed := Spec.composed_path H dir name decorations in
  os_open_lib E (c_str composed) = 0 ->
  dylib_ctor T H E (Some dir) (Some name) decorations w
  = (Thrown
       (load_error
          ("Could not load library '" ++ composed ++ "'" ++ newline
           ++ error_text T E (calls w ++ [Call_open_lib (c_str composed)])%list)),
     {| libs := libs w;
        files := files w;
        calls := (calls w ++ [Call_open_lib (c_str composed);
                              Call_error_description])%list |}).
Proof.
  intros composed Hnull.
  unfold dylib_ctor, bind, lift, open_lib.
  rewrite composed_path_spec. fold composed.
  cbn -[String.append]. rewrite Hnull. cbn -[String.append].
  unfold error_text, get_error_description, log. cbn -[String.append].
  rewrite <- app_assoc. cbn -[String.append].
  rewrite <- (string_app_assoc (final_path_of dir)), composed_path_spec.
  reflexivity.
Qed.

Lemma ctor_loader_failure_witness :
  dylib_ctor Posix sample_header sample_env (Some "/opt/lib") (Some "missing")
    true busy_world
  = (Thrown
       (load_error
          ("Could not load library '/opt/lib/libmissing.so'" ++ newline
           ++ "undefined symbol")),
     {| libs := [4096; 12288];
        files := [3; 7];
        calls := [Call_open_lib "other.so";
                  Call_open_lib "/opt/lib/libmissing.so";
                  Call_error_description] |}).
Proof.
  apply (ctor_loader_failure Posix sample_header sample_env "/opt/lib"
           "missing" true busy_world).
  reflexivity.
Defined.

(** X3: an object the constructor returns is loaded.  Its handle is not
    null, is what the loader gave for the composed path and is among the
    open libraries.  In the POSIX build its descriptor is what [open]
    gave for the same path, is not negative and is among the open
    descriptors; in the Windows build no file is opened. *)
Theorem ctor_success_invariant
    (T : target) (H : header) (E : env) (dir_path lib_name : option string)
    (decorations : bool) (w : world) (d : dylib) :
  fst (dylib_ctor T H E dir_path lib_name decorations w) = Returned d ->
  let w' := snd (dylib_ctor T H E dir_path lib_name decorations w) in
  exists dir name,
    dir_path = Some dir /\ lib_name = Some name /\
    let path := c_str (Spec.composed_path H dir name decorations) in
    native_handle d = os_open_lib E path /\
    native_handle d <> 0 /\
    In (native_handle d) (libs w') /\
    match T with
    | Posix => m_fd d = os_open E path /\ 0 <= m_fd d /\ In (m_fd d) (files w')
    | Windows => files w' = files w /\ file_closes (calls w') = file_closes (calls w)
    end.
Proof.
  destruct dir_path as [dir|], lib_name as [name|]; try discriminate.
  intros Hret w'. exists dir, name. split; [reflexivity|]. split; [reflexivity|].
  intros path. subst w'. revert Hret.
  unfold dylib_ctor, bind, lift, open_lib, posix_open, native_handle.
  rewrite composed_path_spec. fold path.
  cbn -[String.append].
  destruct (os_open_lib E path =? 0) eqn:Hlib; cbn -[String.append];
    [discriminate|].
  apply Z.eqb_neq in Hlib.
  destruct T; cbn -[String.append].
  - intros [= <-]. cbn. repeat split; try assumption.
    + apply in_or_app. right. now left.
    + rewrite file_closes_app. cbn. now rewrite app_nil_r.
  - destruct (os_open E path <? 0) eqn:Hfd; cbn; [discriminate|].
    apply Z.ltb_ge in Hfd. intros [= <-]. cbn. repeat split; try assumption.
    + apply in_or_app. right. now left.
    + apply in_or_app. right. now left.
Qed.

Lemma ctor_success_invariant_witness :
  exists dir name,
    Some "/opt/lib/" = Some dir /\ Some "libcalc.so" = Some name /\
    let path := c_str (Spec.composed_path sample_header dir name false) in
    native_handle calc = os_open_lib sample_env path /\
    native_handle calc <> 0 /\
    In (native_handle calc)
       (libs (snd (dylib_ctor Posix sample_header sample_env
                     (Some "/opt/lib/") (Some "libcalc.so") false busy_world))) /\
    m_fd calc = os_open sample_env path /\ 0 <= m_fd calc /\
    In (m_fd calc)
       (files (snd (dylib_ctor Posix sample_header sample_env
                      (Some "/opt/lib/") (Some "libcalc.so") false busy_world))).
Proof.
  apply (ctor_success_invariant Posix sample_header sample_env
           (Some "/opt/lib/") (Some "libcalc.so") false busy_world calc).
  reflexivity.
Defined.

(** ** A whole lifetime *)

Lemma remove_one_app_last (x : Z) (l : list Z) :
  Permutation (remove_one x (l ++ [x])) l.
Proof.
  induction l as [|y l IH]; simpl.
  - now rewrite Z.eqb_refl.
  - destruct (x =? y) eqn:Hxy.
    + apply Z.eqb_eq in Hxy as ->. symmetry. apply Permutation_cons_append.
    + now constructor.
Qed.

(** What the destructor does to the open libraries and descriptors, and
    the calls it makes. *)
Lemma dtor_effect (T : target) (d : dylib) (w : world) :
  let w' := snd (dylib_dtor T d w) in
  libs w' = (if m_handle d =? 0 then libs w else remove_one (m_handle d) (libs w))
  /\ files w' = match T with
               | Posix => if m_fd d >? -1 then remove_one (m_fd d) (files w)
                          else files w
               | Windows => files w
               end
  /\ loader_closes (calls w')
     = (loader_closes (calls w)
          ++ if m_handle d =? 0 then [] else [m_handle d])%list
  /\ file_closes (calls w')
     = (file_closes (calls w)
          ++ match T with
             | Posix => if m_fd d >? -1 then [m_fd d] else []
             | Windows => []
             end)%list
  /\ loader_opens (calls w') = loader_opens (calls w).
Proof.
  unfold dylib_dtor, close_lib, posix_close.
  destruct (m_handle d =? 0), T; cbn; try destruct (m_fd d >? -1); cbn;
    rewrite ?loader_closes_app, ?file_closes_app, ?loader_opens_app; cbn;
    rewrite ?app_nil_r; repeat split; reflexivity.
Qed.

(** X4: the lifetime of an object that is only read is balanced.  When
    the constructor succeeds and the body of the scope, which reads the
    object and cannot move from it, opens and closes nothing itself, the
    libraries and the descriptors open after the scope are those open
    before it, whether the body returns or throws. *)
Theorem scoped_releases_what_it_acquired
    (T : target) (H : header) (E : env) (A : Type) (body : dylib -> M A)
    (dir_path lib_name : option string) (decorations : bool)
    (w : world) (d : dylib) :
  fst (dylib_ctor T H E dir_path lib_name decorations w) = Returned d ->
  (forall lib w0,
      libs (snd (body lib w0)) = libs w0 /\ files (snd (body lib w0)) = files w0) ->
  let w' := snd (scoped T H E dir_path lib_name decorations body w) in
  Permutation (libs w') (libs w) /\ Permutation (files w') (files w).
Proof.
  destruct dir_path as [dir|], lib_name as [name|]; try discriminate.
  intros Hret Hbody w'. subst w'. unfold scoped. revert Hret.
  unfold dylib_ctor, bind, lift, open_lib, posix_open.
  set (path := c_str (final_path_of dir ++ final_name_of H name decorations)).
  cbn -[String.append dylib_dtor].
  destruct (os_open_lib E path =? 0) eqn:Hlib; cbn -[String.append dylib_dtor];
    [discriminate|].
  destruct T; cbn -[String.append dylib_dtor].
  - intros [= <-].
    match goal with |- context [body ?l ?w1] =>
      destruct (body l w1) as [r w2] eqn:Hb;
      pose proof (Hbody l w1) as [Hl Hf]; rewrite Hb in Hl, Hf end.
    cbn [snd] in *.
    destruct (dtor_effect Windows {| m_handle := os_open_lib E path;
                                     m_fd := m_fd_init H |} w2)
      as (Hdl & Hdf & _).
    cbn [m_handle m_fd] in *. rewrite Hlib in Hdl.
    rewrite Hdl, Hdf, Hl, Hf. cbn [libs files].
    split; [apply remove_one_app_last | reflexivity].
  - destruct (os_open E path <? 0) eqn:Hfd; cbn -[String.append dylib_dtor];
      [discriminate|].
    intros [= <-].
    match goal with |- context [body ?l ?w1] =>
      destruct (body l w1) as [r w2] eqn:Hb;
      pose proof (Hbody l w1) as [Hl Hf]; rewrite Hb in Hl, Hf end.
    cbn [snd] in *.
    destruct (dtor_effect Posix {| m_handle := os_open_lib E path;
                                   m_fd := os_open E path |} w2)
      as (Hdl & Hdf & _).
    cbn [m_handle m_fd] in *. rewrite Hlib in Hdl.
    assert (Hpos : (os_open E path >? -1) = true)
      by (apply Z.ltb_ge in Hfd; apply Z.gtb_lt; lia).
    rewrite Hpos in Hdf.
    rewrite Hdl, Hdf, Hl, Hf. cbn [libs files].
    split; apply remove_one_app_last.
Qed.

Lemma scoped_releases_what_it_acquired_witness :
  let w' := snd (scoped Posix sample_header sample_env
                   (Some "/opt/lib") (Some "calc") true
                   (fun lib => ret (m_handle lib)) busy_world) in
  Permutation (libs w') [4096; 12288] /\ Permutation (files w') [3; 7].
Proof.
  apply (scoped_releases_what_it_acquired Posix sample_header sample_env Z
           (fun lib => ret (m_handle lib))
           (Some "/opt/lib") (Some "calc") true busy_world calc).
  - reflexivity.
  - intros lib w0. split; reflexivity.
Defined.

(** ** Moves, continued *)

(** The two objects after a move constructor. *)
Lemma move_ctor_result
    (H : header) (st : gmap Z dylib) (fresh other : Z) (src : dylib) :
  st !! fresh = None ->
  st !! other = Some src ->
  exists st',
    dylib_move_ctor H fresh other st = Some st' /\
    st' !! fresh = Some {| m_handle := m_handle src; m_fd := m_fd_init H |} /\
    st' !! other = Some {| m_handle := 0; m_fd := m_fd src |}.
Proof.
  intros Hfresh Hother.
  assert (Hne : fresh <> other) by (intros ->; congruence).
  unfold dylib_move_ctor. rewrite Hfresh, Hother.
  eexists. split; [reflexivity|]. rewrite !lookup_set_m_handle.
  destruct (decide (other = fresh)) as [Heq|_]; [congruence|].
  destruct (decide (other = other)) as [_|Hn]; [|congruence].
  rewrite lookup_insert_eq, lookup_insert_ne, Hother by congruence.
  split; reflexivity.
Qed.

(** The two objects after a move assignment between different objects. *)
Lemma move_assign_result
    (st : gmap Z dylib) (this other : Z) (a b : dylib) :
  st !! this = Some a ->
  st !! other = Some b ->
  this <> other ->
  exists st',
    dylib_move_assign this other st = Some st' /\
    st' !! this = Some {| m_handle := m_handle b; m_fd := m_fd a |} /\
    st' !! other = Some {| m_handle := m_handle a; m_fd := m_fd b |}.
Proof.
  intros Hthis Hother Hne.
  unfold dylib_move_assign. rewrite Hthis, Hother.
  apply Z.eqb_neq in Hne as Hneb. rewrite Hneb. cbn [negb].
  eexists. split; [reflexivity|].
  unfold swap_m_handle, get_m_handle. rewrite Hthis, Hother.
  rewrite !lookup_set_m_handle.
  destruct (decide (other = this)) as [Heq|_]; [congruence|].
  destruct (decide (this = this)) as [_|Hn]; [|congruence].
  destruct (decide (other = other)) as [_|Hn]; [|congruence].
  destruct (decide (this = other)) as [Heq|_]; [congruence|].
  rewrite Hthis, Hother. split; reflexivity.
Qed.

(** X5: a library that went through the move constructor is closed
    exactly once.  When the new object and the moved-from object are both
    destroyed, in either order, the loader is asked to close the library
    of the source once and nothing else. *)
Theorem move_ctor_then_destroy_closes_once
    (T : target) (H : header) (st : gmap Z dylib) (fresh other : Z)
    (src : dylib) (w : world) :
  st !! fresh = None ->
  st !! other = Some src ->
  m_handle src <> 0 ->
  exists st' moved_to moved_from,
    dylib_move_ctor H fresh other st = Some st' /\
    st' !! fresh = Some moved_to /\
    st' !! other = Some moved_from /\
    loader_closes
      (calls (snd (dylib_dtor T moved_from (snd (dylib_dtor T moved_to w)))))
    = (loader_closes (calls w) ++ [m_handle src])%list /\
    loader_closes
      (calls (snd (dylib_dtor T moved_to (snd (dylib_dtor T moved_from w)))))
    = (loader_closes (calls w) ++ [m_handle src])%list.
Proof.
  intros Hfresh Hother Hloaded.
  destruct (move_ctor_result H st fresh other src Hfresh Hother)
    as (st' & Hmove & Hnew & Hold).
  exists st', {| m_handle := m_handle src; m_fd := m_fd_init H |},
    {| m_handle := 0; m_fd := m_fd src |}.
  repeat (split; [assumption|]).
  apply Z.eqb_neq in Hloaded.
  split.
  - destruct (dtor_effect T {| m_handle := 0; m_fd := m_fd src |}
                (snd (dylib_dtor T {| m_handle := m_handle src;
                                      m_fd := m_fd_init H |} w)))
      as (_ & _ & -> & _).
    destruct (dtor_effect T {| m_handle := m_handle src;
                               m_fd := m_fd_init H |} w)
      as (_ & _ & -> & _).
    cbn [m_handle]. rewrite Hloaded. cbn. now rewrite app_nil_r.
  - destruct (dtor_effect T {| m_handle := m_handle src;
                               m_fd := m_fd_init H |}
                (snd (dylib_dtor T {| m_handle := 0; m_fd := m_fd src |} w)))
      as (_ & _ & -> & _).
    destruct (dtor_effect T {| m_handle := 0; m_fd := m_fd src |} w)
      as (_ & _ & -> & _).
    cbn [m_handle]. rewrite Hloaded. cbn. now rewrite app_nil_r.
Qed.

Lemma move_ctor_then_destroy_closes_once_witness :
  exists st' moved_to moved_from,
    dylib_move_ctor sample_header 48 16 two_objects = Some st' /\
    st' !! 48 = Some moved_to /\
    st' !! 16 = Some moved_from /\
    loader_closes
      (calls (snd (dylib_dtor Posix moved_from
                     (snd (dylib_dtor Posix moved_to busy_world)))))
    = [4096] /\
    loader_closes
      (calls (snd (dylib_dtor Posix moved_to
                     (snd (dylib_dtor Posix moved_from busy_world)))))
    = [4096].
Proof.
  apply (move_ctor_then_destroy_closes_once Posix sample_header two_objects
           48 16 calc busy_world).
  - reflexivity.
  - reflexivity.
  - simpl. lia.
Defined.

(** X6: after a move assignment between two loaded objects, destroying
    both closes each of the two libraries exactly once, and in the POSIX
    build each of the two descriptors exactly once: the destination
    closes the library of the source and its own descriptor, the source
    the library of the destination and its own descriptor. *)
Theorem move_assign_then_destroy_closes_each_once
    (T : target) (st : gmap Z dylib) (this other : Z) (a b : dylib) (w : world) :
  st !! this = Some a ->
  st !! other = Some b ->
  this <> other ->
  m_handle a <> 0 ->
  m_handle b <> 0 ->
  -1 < m_fd a ->
  -1 < m_fd b ->
  exists st' a' b',
    dylib_move_assign this other st = Some st' /\
    st' !! this = Some a' /\
    st' !! other = Some b' /\
    let w' := snd (dylib_dtor T b' (snd (dylib_dtor T a' w))) in
    loader_closes (calls w')
    = (loader_closes (calls w) ++ [m_handle b; m_handle a])%list /\
    file_closes (calls w')
    = (file_closes (calls w)
         ++ DYLIB_WIN_OTHER T [] [m_fd a; m_fd b])%list.
Proof.
  intros Hthis Hother Hne Ha Hb Hfa Hfb.
  destruct (move_assign_result st this other a b Hthis Hother Hne)
    as (st' & Hmove & Ha' & Hb').
  exists st', {| m_handle := m_handle b; m_fd := m_fd a |},
    {| m_handle := m_handle a; m_fd := m_fd b |}.
  repeat (split; [assumption|]).
  apply Z.eqb_neq in Ha, Hb. apply Z.gtb_lt in Hfa, Hfb.
  intros w'. subst w'.
  destruct (dtor_effect T {| m_handle := m_handle a; m_fd := m_fd b |}
              (snd (dylib_dtor T {| m_handle := m_handle b;
                                    m_fd := m_fd a |} w)))
    as (_ & _ & -> & -> & _).
  destruct (dtor_effect T {| m_handle := m_handle b; m_fd := m_fd a |} w)
    as (_ & _ & -> & -> & _).
  cbn [m_handle m_fd]. rewrite Ha, Hb.
  rewrite <- !app_assoc. split; [reflexivity|].
  destruct T; cbn [DYLIB_WIN_OTHER]; [reflexivity|].
  now rewrite Hfa, Hfb.
Qed.

Lemma move_assign_then_destroy_closes_each_once_witness :
  exists st' a' b',
    dylib_move_assign 16 32 two_objects = Some st' /\
    st' !! 16 = Some a' /\
    st' !! 32 = Some b' /\
    let w' := snd (dylib_dtor Posix b' (snd (dylib_dtor Posix a' busy_world))) in
    loader_closes (calls w') = [8192; 4096] /\
    file_closes (calls w') = [3; 4].
Proof.
  apply (move_assign_then_destroy_closes_each_once Posix two_objects 16 32
           calc {| m_handle := 8192; m_fd := 4 |} busy_world);
    first [reflexivity | simpl; lia].
Defined.

(** X7: a move changes only the two objects it names: every object at
    another address is as before, after the move constructor and after a
    move assignment; and a move assignment builds and drops no object. *)
Theorem moves_change_no_third_object
    (H : header) (st : gmap Z dylib) (this other addr : Z) :
  addr <> this ->
  addr <> other ->
  (forall st',
      dylib_move_ctor H this other st = Some st' -> st' !! addr = st !! addr)
  /\ (forall st',
         dylib_move_assign this other st = Some st' ->
         st' !! addr = st !! addr /\ dom st' = dom st).
Proof.
  intros Hat Hao. split.
  - intros st'. unfold dylib_move_ctor.
    destruct (st !! this); [discriminate|].
    destruct (st !! other); [|discriminate].
    intros [= <-]. rewrite lookup_set_m_handle.
    destruct (decide (other = addr)) as [Heq|_]; [congruence|].
    now rewrite lookup_insert_ne by congruence.
  - intros st'. unfold dylib_move_assign.
    destruct (st !! this); [|discriminate].
    destruct (st !! other); [|discriminate].
    destruct (negb (this =? other)); intros [= <-]; [|split; reflexivity].
    unfold swap_m_handle, set_m_handle. split.
    + rewrite !lookup_alter_ne by congruence. reflexivity.
    + now rewrite !dom_alter_L.
Qed.

Lemma moves_change_no_third_object_witness :
  (forall st',
      dylib_move_ctor sample_header 48 32 two_objects = Some st' ->
      st' !! 16 = two_objects !! 16)
  /\ (forall st',
         dylib_move_assign 48 32 two_objects = Some st' ->
         st' !! 16 = two_objects !! 16 /\ dom st' = dom two_objects).
Proof.
  apply (moves_change_no_third_object sample_header two_objects 48 32 16); lia.
Defined.

Lemma dylib_eta (d : dylib) : {| m_handle := m_handle d; m_fd := m_fd d |} = d.
Proof. now destruct d. Qed.

(** X8: move assignment exchanges.  Assigning [other] to [this] and
    assigning [this] to [other] give the same store, and assigning a
    second time gives back the store before the first. *)
Theorem move_assign_exchanges (st : gmap Z dylib) (this other : Z) :
  dylib_move_assign this other st = dylib_move_assign other this st
  /\ (forall st',
         dylib_move_assign this other st = Some st' ->
         dylib_move_assign this other st' = Some st).
Proof.
  split.
  - unfold dylib_move_assign.
    destruct (st !! this) as [a|] eqn:Hthis, (st !! other) as [b|] eqn:Hother;
      try reflexivity.
    rewrite (Z.eqb_sym other this).
    destruct (this =? other) eqn:Hto; [reflexivity|]. cbn [negb].
    apply Z.eqb_neq in Hto. f_equal. apply map_eq. intros i.
    unfold swap_m_handle, get_m_handle. rewrite Hthis, Hother.
    rewrite !lookup_set_m_handle.
    destruct (decide (this = i)) as [Hti|Hti], (decide (other = i)) as [Hoi|Hoi];
      try congruence; subst; now rewrite ?Hthis, ?Hother.
  - intros st'. unfold dylib_move_assign.
    destruct (st !! this) as [a|] eqn:Hthis; [|discriminate].
    destruct (st !! other) as [b|] eqn:Hother; [|discriminate].
    destruct (this =? other) eqn:Hto; cbn [negb]; intros [= <-].
    + now rewrite Hthis, Hother.
    + apply Z.eqb_neq in Hto.
      assert (Ht : swap_m_handle this other st !! this
                   = Some {| m_handle := m_handle b; m_fd := m_fd a |}).
      { unfold swap_m_handle, get_m_handle. rewrite Hthis, Hother.
        rewrite !lookup_set_m_handle.
        destruct (decide (other = this)); [congruence|].
        destruct (decide (this = this)); [|congruence]. now rewrite Hthis. }
      assert (Ho : swap_m_handle this other st !! other
                   = Some {| m_handle := m_handle a; m_fd := m_fd b |}).
      { unfold swap_m_handle, get_m_handle. rewrite Hthis, Hother.
        rewrite !lookup_set_m_handle.
        destruct (decide (other = other)); [|congruence].
        destruct (decide (this = other)); [congruence|]. now rewrite Hother. }
      rewrite Ht, Ho. f_equal. apply map_eq. intros i.
      unfold swap_m_handle at 1. unfold get_m_handle. rewrite Ht, Ho.
      cbn [m_handle]. rewrite !lookup_set_m_handle.
      destruct (decide (this = i)) as [Hti|Hti], (decide (other = i)) as [Hoi|Hoi];
        try congruence.
      * subst i. rewrite Ht, Hthis. cbn. now rewrite dylib_eta.
      * subst i. rewrite Ho, Hother. cbn. now rewrite dylib_eta.
      * unfold swap_m_handle. rewrite !lookup_set_m_handle.
        destruct (decide (other = i)), (decide (this = i)); congruence.
Qed.

(** X9: no move carries a descriptor.  After the move constructor the
    new object holds the initial [m_fd] of the header and the source
    keeps its descriptor; after a move assignment between two different
    objects each keeps the descriptor it had, while the handles are
    exchanged. *)
Theorem moves_keep_descriptors
    (H : header) (st : gmap Z dylib) (other fresh this : Z) (src dst : dylib) :
  st !! other = Some src ->
  st !! fresh = None ->
  st !! this = Some dst ->
  this <> other ->
  (exists st',
      dylib_move_ctor H fresh other st = Some st' /\
      m_fd <$> st' !! fresh = Some (m_fd_init H) /\
      m_fd <$> st' !! other = Some (m_fd src))
  /\
  (exists st',
      dylib_move_assign this other st = Some st' /\
      m_fd <$> st' !! this = Some (m_fd dst) /\
      m_fd <$> st' !! other = Some (m_fd src)).
Proof.
  intros Hother Hfresh Hthis Hne. split.
  - destruct (move_ctor_result H st fresh other src Hfresh Hother)
      as (st' & Hmove & Hf & Ho).
    exists st'. rewrite Hf, Ho. repeat split. exact Hmove.
  - destruct (move_assign_result st this other dst src Hthis Hother Hne)
      as (st' & Hmove & Hf & Ho).
    exists st'. rewrite Hf, Ho. repeat split. exact Hmove.
Qed.

Lemma moves_keep_descriptors_witness :
  (exists st',
      dylib_move_ctor sample_header 48 32 two_objects = Some st' /\
      m_fd <$> st' !! 48 = Some (-1) /\
      m_fd <$> st' !! 32 = Some 4)
  /\
  (exists st',
      dylib_move_assign 16 32 two_objects = Some st' /\
      m_fd <$> st' !! 16 = Some 3 /\
      m_fd <$> st' !! 32 = Some 4).
Proof.
  apply (moves_keep_descriptors sample_header two_objects 32 48 16
           {| m_handle := 8192; m_fd := 4 |} calc);
    [reflexivity | reflexivity | reflexivity | lia].
Defined.

(** ** Resolution by name, continued *)

(** [get_symbol], path by path. *)
Lemma get_symbol_unfold
    (T : target) (H : header) (E : env) (d : dylib)
    (symbol_name : option string) (w : world) :
  get_symbol T H E d symbol_name w
  = match symbol_name with
    | None => (Thrown (invalid_argument "Null parameter"), w)
    | Some name =>
        if m_handle d =? 0 then
          (Thrown (logic_error "The dynamic library handle is null"), w)
        else
          let w1 := log (Call_locate_symbol (m_handle d) name) w in
          if os_locate_symbol E (m_handle d) name =? 0 then
            let fd := DYLIB_WIN_OTHER T None (Some (m_fd d)) in
            let dem := demangle (symbols_default H) in
            let load := loadable (symbols_default H) in
            let w2 := log (Call_get_symbols (m_handle d) fd dem load) w1 in
            match get_symbols E (m_handle d) fd dem load with
            | inl e => (Thrown (symbol_error e), w2)
            | inr all =>
                match collect_matching E name all [] with
                | [] =>
                    (Thrown (symbol_error
                               (could_not_get name (error_text T E (calls w2)))),
                     log Call_error_description w2)
                | [only] =>
                    let w3 :=
                      log (Call_locate_symbol (m_handle d) (c_str only)) w2 in
                    if os_locate_symbol E (m_handle d) (c_str only) =? 0 then
                      (Thrown (symbol_error
                                 (could_not_get name
                                    (error_text T E (calls w3)))),
                       log Call_error_description w3)
                    else
                      (Returned (os_locate_symbol E (m_handle d) (c_str only)),
                       w3)
                | _ :: _ :: _ =>
                    (Thrown (symbol_error (multiple_matches name)), w2)
                end
            end
          else (Returned (os_locate_symbol E (m_handle d) name), w1)
    end.
Proof.
  unfold get_symbol. destruct symbol_name as [name|]; [|reflexivity].
  destruct (m_handle d =? 0); [reflexivity|].
  unfold bind at 1. unfold lift at 1, locate_symbol at 1.
  destruct (os_locate_symbol E (m_handle d) name =? 0); [|reflexivity].
  unfold bind at 1. unfold symbols. cbv zeta.
  destruct (get_symbols E (m_handle d) _ _ _) as [e|all]; [reflexivity|].
  destruct (collect_matching E name all []) as [|only [|second rest]];
    cbn [List.length Nat.eqb List.hd]; try reflexivity.
  unfold bind, lift, locate_symbol. cbn [fst snd].
  destruct (os_locate_symbol E (m_handle d) (c_str only) =? 0); reflexivity.
Qed.

(** X10: [get_symbol] never returns a null address: what it returns is
    an address the loader gave for some name, and is not null. *)
Theorem get_symbol_never_null
    (T : target) (H : header) (E : env) (d : dylib)
    (symbol_name : option string) (w : world) (address : Z) :
  fst (get_symbol T H E d symbol_name w) = Returned address ->
  address <> 0
  /\ exists name, address = os_locate_symbol E (m_handle d) name.
Proof.
  rewrite get_symbol_unfold.
  destruct symbol_name as [name|]; [|discriminate].
  destruct (m_handle d =? 0); [discriminate|]. cbv zeta.
  destruct (os_locate_symbol E (m_handle d) name =? 0) eqn:Hdirect.
  - destruct (get_symbols E (m_handle d) _ _ _) as [e|all]; [discriminate|].
    destruct (collect_matching E name all []) as [|only [|second rest]];
      try discriminate.
    destruct (os_locate_symbol E (m_handle d) (c_str only) =? 0) eqn:Hsecond;
      [discriminate|].
    intros [= <-]. apply Z.eqb_neq in Hsecond. split; [assumption|].
    now exists (c_str only).
  - intros [= <-]. apply Z.eqb_neq in Hdirect. split; [assumption|].
    now exists name.
Qed.

Lemma get_symbol_never_null_witness :
  4608 <> 0
  /\ exists name, 4608 = os_locate_symbol sample_env (m_handle calc) name.
Proof.
  apply (get_symbol_never_null Posix sample_header sample_env calc
           (Some "add") empty_world 4608).
  reflexivity.
Defined.

(** X11: what [get_symbol] can throw.  A failure is [invalid_argument]
    for a null name; for a name, [logic_error] on a null handle; and on a
    loaded object with a name every failure is a [symbol_error]. *)
Theorem get_symbol_failure_kinds
    (T : target) (H : header) (E : env) (d : dylib)
    (symbol_name : option string) (w : world) (e : exn) :
  fst (get_symbol T H E d symbol_name w) = Thrown e ->
  match symbol_name with
  | None => e = invalid_argument "Null parameter"
  | Some _ =>
      if m_handle d =? 0
      then e = logic_error "The dynamic library handle is null"
      else exists what, e = symbol_error what
  end.
Proof.
  rewrite get_symbol_unfold.
  destruct symbol_name as [name|]; [|now intros [= <-]].
  destruct (m_handle d =? 0); [now intros [= <-]|]. cbv zeta.
  destruct (os_locate_symbol E (m_handle d) name =? 0); [|discriminate].
  destruct (get_symbols E (m_handle d) _ _ _) as [msg|all];
    [intros [= <-]; eauto|].
  destruct (collect_matching E name all []) as [|only [|second rest]];
    try (intros [= <-]; eauto).
  destruct (os_locate_symbol E (m_handle d) (c_str only) =? 0);
    [intros [= <-]; eauto | discriminate].
Qed.

Lemma get_symbol_failure_kinds_witness :
  exists what,
    symbol_error "Could not get symbol 'f': multiple matches" = symbol_error what.
Proof.
  apply (get_symbol_failure_kinds Posix sample_header sample_env calc
           (Some "f") empty_world
           (symbol_error "Could not get symbol 'f': multiple matches")).
  reflexivity.
Defined.

(** X12: when the reader fails during the fallback, [get_symbol] fails
    with a [symbol_error] that carries the text of the reader, after the
    direct resolution and the enumeration and nothing else: no
    diagnostic is asked for. *)
Theorem get_symbol_reader_failure_surfaces
    (T : target) (H : header) (E : env) (d : dylib) (name e : string)
    (w : world) :
  m_handle d <> 0 ->
  os_locate_symbol E (m_handle d) name = 0 ->
  get_symbols E (m_handle d) (DYLIB_WIN_OTHER T None (Some (m_fd d)))
    (demangle (symbols_default H)) (loadable (symbols_default H)) = inl e ->
  get_symbol T H E d (Some name) w
  = (Thrown (symbol_error e),
     {| libs := libs w;
        files := files w;
        calls := (calls w
                    ++ [Call_locate_symbol (m_handle d) name;
                        Call_get_symbols (m_handle d)
                          (DYLIB_WIN_OTHER T None (Some (m_fd d)))
                          (demangle (symbols_default H))
                          (loadable (symbols_default H))])%list |}).
Proof.
  intros Hloaded Hdirect Henum. rewrite get_symbol_unfold.
  apply Z.eqb_neq in Hloaded. rewrite Hloaded, Hdirect. cbn [Z.eqb]. cbv zeta.
  rewrite Henum. unfold log. cbn. now rewrite <- app_assoc.
Qed.

Lemma get_symbol_reader_failure_surfaces_witness :
  get_symbol Posix sample_header sample_env
    {| m_handle := 4096; m_fd := -1 |} (Some "add") empty_world
  = (Thrown (symbol_error "Could not read the symbol table"),
     {| libs := []; files := [];
        calls := [Call_locate_symbol 4096 "add";
                  Call_get_symbols 4096 (Some (-1)) false false] |}).
Proof.
  apply (get_symbol_reader_failure_surfaces Posix sample_header sample_env
           {| m_handle := 4096; m_fd := -1 |} "add"
           "Could not read the symbol table" empty_world).
  - simpl. lia.
  - reflexivity.
  - reflexivity.
Defined.

(** X13: a name that [has_symbol] finds, [get_symbol] returns: it gives
    the address of the direct resolution, after the same single call. *)
Theorem has_symbol_implies_get_symbol
    (T : target) (H : header) (E : env) (d : dylib)
    (symbol_name : option string) (w : world) :
  fst (has_symbol E d symbol_name w) = true ->
  exists name,
    symbol_name = Some name /\
    get_symbol T H E d symbol_name w
    = (Returned (os_locate_symbol E (m_handle d) name),
       snd (has_symbol E d symbol_name w)).
Proof.
  rewrite get_symbol_unfold. unfold has_symbol, locate_symbol.
  destruct symbol_name as [name|]; [|discriminate].
  destruct (m_handle d =? 0); [discriminate|]. cbn [fst snd]. cbv zeta.
  intros Hfound. apply negb_true_iff in Hfound. rewrite Hfound.
  now exists name.
Qed.

Lemma has_symbol_implies_get_symbol_witness :
  exists name,
    Some "version" = Some name /\
    get_symbol Posix sample_header sample_env calc (Some "version") busy_world
    = (Returned (os_locate_symbol sample_env (m_handle calc) name),
       snd (has_symbol sample_env calc (Some "version") busy_world)).
Proof.
  apply (has_symbol_implies_get_symbol Posix sample_header sample_env calc
           (Some "version") busy_world).
  reflexivity.
Defined.

(** The converse does not hold: [get_symbol] finds [add] through the
    fallback, [has_symbol] does not look that far. *)
Example has_symbol_misses_fallback :
  fst (has_symbol sample_env calc (Some "add") empty_world) = false /\
  fst (get_symbol Posix sample_header sample_env calc (Some "add") empty_world)
  = Returned 4608.
Proof. split; reflexivity. Qed.

(** ** What the queries leave alone *)

Lemma only_queries_refl (w : world) : only_queries w w.
Proof.
  repeat split. exists []. now rewrite app_nil_r.
Qed.

Lemma only_queries_log (c : call) (w w' : world) :
  is_query c = true -> only_queries w w' -> only_queries w (log c w').
Proof.
  intros Hc (Hl & Hf & cs & Hcs & Hq). repeat split; [exact Hl | exact Hf|].
  exists (cs ++ [c])%list. split.
  - cbn. now rewrite Hcs, app_assoc.
  - rewrite forallb_app, Hq. cbn. now rewrite Hc.
Qed.

Create HintDb queries.
#[local] Hint Resolve only_queries_refl only_queries_log : queries.


(** X15: how often [get_symbol] goes to the loader and to the reader.
    On every path, failing or not, one call of [get_symbol] asks the
    loader to resolve a name at most twice and the reader to enumerate
    at most once. *)
Theorem get_symbol_call_budget
    (T : target) (H : header) (E : env) (d : dylib)
    (symbol_name : option string) (w : world) :
  exists cs,
    calls (snd (get_symbol T H E d symbol_name w)) = (calls w ++ cs)%list /\
    (List.length (List.filter is_locate_symbol cs) <= 2)%nat /\
    (List.length (List.filter is_get_symbols cs) <= 1)%nat.
Proof.
  rewrite get_symbol_unfold.
  destruct symbol_name as [name|];
    [|exists []; cbn; rewrite app_nil_r; repeat split; lia].
  destruct (m_handle d =? 0);
    [exists []; cbn; rewrite app_nil_r; repeat split; lia|].
  cbv zeta.
  destruct (os_locate_symbol E (m_handle d) name =? 0);
    [|eexists; cbn; split; [reflexivity | cbn; split; lia]].
  destruct (get_symbols E (m_handle d) _ _ _) as [e|all];
    [eexists; cbn; rewrite <- app_assoc; split;
     [reflexivity | cbn; split; lia]|].
  destruct (collect_matching E name all []) as [|only [|second rest]];
    try (eexists; cbn; rewrite <- !app_assoc; split;
         [reflexivity | cbn; split; lia]).
  destruct (os_locate_symbol E (m_handle d) (c_str only) =? 0);
    eexists; cbn; rewrite <- !app_assoc; (split;
    [reflexivity | cbn; split; lia]).
Qed.

(** ** The loop of the fallback, as it is *)

(** [starts_with] says what it should. *)
Lemma starts_with_correct (p s : string) :
  starts_with p s = true <-> exists rest, s = p ++ rest.
Proof.
  revert s. induction p as [|a p IH]; intros s.
  - simpl. split; [intros _; now exists s | reflexivity].
  - destruct s as [|b s]; simpl.
    + split; [discriminate | intros [rest Hr]; discriminate Hr].
    + rewrite andb_true_iff, ascii_eqb_true, IH. split.
      * intros [-> [rest ->]]. now exists rest.
      * intros [rest Hr]. rewrite string_app_cons in Hr.
        inversion Hr; subst. split; [reflexivity | now exists rest].
Qed.

Lemma starts_with_app (p s : string) : starts_with p (p ++ s) = true.
Proof. apply starts_with_correct. now exists s. Qed.

Lemma at_index_app (p s : string) :
  at_index (p ++ s) (size p) = at_index s 0.
Proof.
  induction p as [|a p IH]; [reflexivity|].
  rewrite string_app_cons. exact IH.
Qed.

(** The loop is a filter that keeps the order. *)
Lemma collect_matching_filter (E : env) (name : string) (all : list string) :
  forall acc,
    collect_matching E name all acc
    = (acc ++ List.filter
                (fun sym =>
                   negb (empty (get_demangled_name E (c_str sym)))
                   && symbol_matches name (get_demangled_name E (c_str sym)))
                all)%list.
Proof.
  induction all as [|sym all IH]; intros acc; simpl.
  - now rewrite app_nil_r.
  - destruct (empty (get_demangled_name E (c_str sym))); simpl; [apply IH|].
    destruct (symbol_matches name (get_demangled_name E (c_str sym))).
    + rewrite IH. now rewrite <- app_assoc.
    + apply IH.
Qed.

Lemma filter_sublist {A : Type} (f : A -> bool) (l : list A) :
  sublist (List.filter f l) l.
Proof.
  induction l as [|x l IH]; simpl; [constructor|].
  destruct (f x); now constructor.
Qed.

(** X16: what the loop of [get_symbol] collects, whatever the reader and
    the demangler give.  The collected symbols are symbols of the table,
    in the order of the table; each has a demangled form that is not
    empty and that starts with the name asked for; and a symbol whose
    demangled form is empty is never collected. *)
Theorem collect_matching_sound
    (E : env) (symbol_name : string) (all_symbols : list string) :
  sublist (collect_matching E symbol_name all_symbols []) all_symbols
  /\ forall sym,
       In sym (collect_matching E symbol_name all_symbols []) ->
       In sym all_symbols
       /\ get_demangled_name E (c_str sym) <> ""
       /\ exists rest, get_demangled_name E (c_str sym) = symbol_name ++ rest.
Proof.
  rewrite collect_matching_filter. cbn [app]. split; [apply filter_sublist|].
  intros sym Hin. apply List.filter_In in Hin as [Hin Hkeep].
  apply andb_prop in Hkeep as [Hne Hm]. split; [exact Hin|]. split.
  - intros Hempty. rewrite Hempty in Hne. discriminate Hne.
  - unfold symbol_matches in Hm. apply andb_prop in Hm as [Hfind _].
    rewrite find_at_zero in Hfind. now apply starts_with_correct.
Qed.

(** X17: the test of the loop on the three shapes of a demangled form
    that starts with the name.  The name itself passes; the name
    followed by ['('] passes, whatever comes after; the name followed by
    any other character that is not NUL fails, so that [add] does not
    select [adder(int)]. *)
Theorem symbol_matches_cases (name rest : string) (c : ascii) :
  symbol_matches name name = true
  /\ symbol_matches name (name ++ String "(" rest) = true
  /\ (c <> "("%char -> c <> zero ->
      symbol_matches name (name ++ String c rest) = false).
Proof.
  unfold symbol_matches. rewrite !find_at_zero.
  split; [|split].
  - pose proof (starts_with_app name "") as Hs.
    pose proof (at_index_app name "") as Ha.
    rewrite string_app_nil_r in Hs, Ha. now rewrite Hs, Ha.
  - rewrite starts_with_app, !at_index_app. reflexivity.
  - intros Hparen Hnul. rewrite starts_with_app, !at_index_app. cbn.
    apply Ascii.eqb_neq in Hparen, Hnul. now rewrite Hparen, Hnul.
Qed.

Lemma symbol_matches_cases_witness :
  symbol_matches "add" "add" = true
  /\ symbol_matches "add" "add(int, int)" = true
  /\ symbol_matches "add" "adder(int)" = false.
Proof.
  destruct (symbol_matches_cases "add" "int, int)" "e") as (Hexact & Hcall & _).
  destruct (symbol_matches_cases "add" "r(int)" "e") as (_ & _ & Hother).
  split; [exact Hexact|]. split; [exact Hcall|].
  apply Hother; discriminate.
Defined.

(** ** The [std::string] overloads *)

Lemma c_str_app_nul (s t : string) :
  Spec.nul_free s = true -> c_str (s ++ String zero t) = s.
Proof.
  induction s as [|a s IH]; [reflexivity|].
  rewrite string_app_cons. simpl.
  intros Hs. apply andb_prop in Hs as [Ha Hs]. apply negb_true_iff in Ha.
  now rewrite Ha, IH.
Qed.

(** X18: the overloads that take a [std::string] see C text only.  For a
    string without NUL they do what the [const char *] functions do on
    it; a string with a NUL inside is looked up as the text before the
    first NUL. *)
Theorem string_overloads_stop_at_nul
    (T : target) (H : header) (E : env) (d : dylib) (s t : string) (w : world) :
  Spec.nul_free s = true ->
  get_symbol_string T H E d s w = get_symbol T H E d (Some s) w
  /\ has_symbol_string E d s w = has_symbol E d (Some s) w
  /\ get_symbol_string T H E d (s ++ String zero t) w
     = get_symbol T H E d (Some s) w
  /\ has_symbol_string E d (s ++ String zero t) w = has_symbol E d (Some s) w.
Proof.
  intros Hs. unfold get_symbol_string, has_symbol_string.
  now rewrite (c_str_nul_free s Hs), (c_str_app_nul s t Hs).
Qed.

Lemma string_overloads_stop_at_nul_witness :
  get_symbol_string Posix sample_header sample_env calc "version" empty_world
  = get_symbol Posix sample_header sample_env calc (Some "version") empty_world
  /\ has_symbol_string sample_env calc "version" empty_world
     = has_symbol sample_env calc (Some "version") empty_world
  /\ get_symbol_string Posix sample_header sample_env calc
       ("version" ++ String zero "@2") empty_world
     = get_symbol Posix sample_header sample_env calc (Some "version") empty_world
  /\ has_symbol_string sample_env calc ("version" ++ String zero "@2") empty_world
     = has_symbol sample_env calc (Some "version") empty_world.
Proof.
  apply (string_overloads_stop_at_nul Posix sample_header sample_env calc
           "version" "@2" empty_world).
  reflexivity.
Defined.

(** ** The directory part *)

(** X19: the directory part the constructor builds.  It is the directory
    as given or the directory and one ['/']; it is empty when the
    directory is, and ends with ['/'] otherwise; building it from its own
    result changes nothing, so that no second separator is ever added. *)
Theorem final_path_of_shape (dir : string) :
  (final_path_of dir = dir \/ final_path_of dir = dir ++ "/")
  /\ (if empty dir then final_path_of dir = ""
      else Spec.ends_with (final_path_of dir) "/" = true)
  /\ final_path_of (final_path_of dir) = final_path_of dir.
Proof.
  assert (Hsep : forall s, Spec.ends_with (s ++ "/") "/" = true)
    by (intros s; apply ends_with_correct; now exists s).
  assert (Hne : forall s, empty (s ++ "/") = false) by (now intros [|a s]).
  rewrite !final_path_of_spec.
  destruct (empty dir) eqn:He.
  - destruct dir; [|discriminate]. repeat split. now left.
  - destruct (Spec.ends_with dir "/") eqn:Hend.
    + rewrite He, Hend. repeat split. now left.
    + rewrite Hne, Hsep. repeat split. now right.
Qed.

(** ** Enumeration after a move *)

(** X20: enumeration on a move-constructed object.  [symbols] on the new
    object gives the reader the handle of the source and, in the POSIX
    build, the initial [m_fd] of the header, not the descriptor the
    source opened; the result is what the reader makes of that. *)
Theorem symbols_after_move_ctor
    (T : target) (H : header) (E : env) (st : gmap Z dylib) (fresh other : Z)
    (src : dylib) (params : symbol_params) (w : world) :
  st !! fresh = None ->
  st !! other = Some src ->
  exists st' moved_to,
    dylib_move_ctor H fresh other st = Some st' /\
    st' !! fresh = Some moved_to /\
    let passed := DYLIB_WIN_OTHER T None (Some (m_fd_init H)) in
    calls (snd (symbols T E moved_to params w))
    = (calls w ++ [Call_get_symbols (m_handle src) passed
                     (demangle params) (loadable params)])%list /\
    fst (symbols T E moved_to params w)
    = match get_symbols E (m_handle src) passed
              (demangle params) (loadable params) with
      | inr names => Returned names
      | inl e => Thrown (symbol_error e)
      end.
Proof.
  intros Hfresh Hother.
  destruct (move_ctor_result H st fresh other src Hfresh Hother)
    as (st' & Hmove & Hnew & _).
  exists st', {| m_handle := m_handle src; m_fd := m_fd_init H |}.
  split; [exact Hmove|]. split; [exact Hnew|].
  intros passed. unfold symbols. cbn [m_handle m_fd]. fold passed.
  destruct (get_symbols E (m_handle src) passed (demangle params)
              (loadable params)); split; reflexivity.
Qed.

Lemma symbols_after_move_ctor_witness :
  exists st' moved_to,
    dylib_move_ctor sample_header 48 16 two_objects = Some st' /\
    st' !! 48 = Some moved_to /\
    calls (snd (symbols Posix sample_env moved_to
                  {| demangle := false; loadable := false |} empty_world))
    = [Call_get_symbols 4096 (Some (-1)) false false] /\
    fst (symbols Posix sample_env moved_to
           {| demangle := false; loadable := false |} empty_world)
    = Thrown (symbol_error "Could not read the symbol table").
Proof.
  apply (symbols_after_move_ctor Posix sample_header sample_env two_objects
           48 16 calc {| demangle := false; loadable := false |} empty_world);
    reflexivity.
Defined.
